(** * Wikipedia clone: article renderer and parts loader

    A shallow embedding of [src/js/app.js] (class [WikiArticleRenderer]) and
    [src/js/parts-loader.js] (class [PartsLoader]), with the properties of the
    specification stated over it.

    JavaScript strings are modelled as [string]: the renderer only
    concatenates them, so the UTF-8 bytes of each literal stand for the
    literal.  A [for ... of] loop that does [html += e] is a [fold_left] over
    the array with the accumulated [html] as state. *)

From Stdlib Require Import String Ascii List Arith Lia Bool.
From Stdlib Require Import DecimalString DecimalNat Permutation.
Import ListNotations.
Open Scope list_scope.
Open Scope string_scope.

Set Implicit Arguments.
Set Warnings "-register-all".

(* ================================================================= *)
(** ** Markup literals *)

Definition dquote : ascii := ascii_of_nat 34.
Definition squote : ascii := ascii_of_nat 39.

(** [lit s] is the markup literal [s] in which the apostrophe stands for the
    double quote of the source literal (no literal of the two source files
    contains an apostrophe). *)
Fixpoint lit (s : string) : string :=
  match s with
  | EmptyString => EmptyString
  | String c r => String (if Ascii.eqb c squote then dquote else c) (lit r)
  end.

Definition nl : string := String (ascii_of_nat 10) EmptyString.

Fixpoint spaces (n : nat) : string :=
  match n with
  | O => EmptyString
  | S k => String (ascii_of_nat 32) (spaces k)
  end.

(** One line of a multi-line template literal: the line break that ends the
    previous line, the indentation, then the text. *)
Definition ln (indent : nat) (s : string) : string :=
  nl ++ spaces indent ++ lit s.

(* ================================================================= *)
(** ** JavaScript values the renderer meets *)

(** An optional text field: [None] is [undefined]; the empty string is
    present but falsy. *)
Definition truthy (o : option string) : bool :=
  match o with
  | Some (String _ _) => true
  | _ => false
  end.

(** [o || d] on an optional text field. *)
Definition or_else (o : option string) (d : string) : string :=
  match o with
  | Some (String c r) => String c r
  | _ => d
  end.

(** [`${i}`] for a non-negative integer. *)
Definition string_of_nat (n : nat) : string :=
  NilEmpty.string_of_uint (Nat.to_uint n).

(** An entry of [categories] or [relatedLinks]: text, or a record
    [{title, url}]. *)
Inductive Link : Type :=
| LinkText (s : string)
| LinkRecord (title url : string).

(** [typeof link === 'object' && link.url] *)
Definition is_linked (l : Link) : bool :=
  match l with
  | LinkText _ => false
  | LinkRecord _ url => truthy (Some url)
  end.

(** [`${link}`]: a string is itself, a plain object prints through
    [Object.prototype.toString]. *)
Definition Link_toString (l : Link) : string :=
  match l with
  | LinkText s => s
  | LinkRecord _ _ => "[object Object]"
  end.

Definition Link_url (l : Link) : string :=
  match l with
  | LinkText _ => "undefined"
  | LinkRecord _ url => url
  end.

Definition Link_title (l : Link) : string :=
  match l with
  | LinkText _ => "undefined"
  | LinkRecord title _ => title
  end.

(* ================================================================= *)
(** ** Data model (the JSON article record) *)

Record Notice : Type := mkNotice {
  notice_type : option string;
  notice_icon : option string;
  notice_title : string;
  notice_text : string
}.

(** [toc] entries; [children] has the same shape. *)
Inductive TocItem : Type :=
| mkTocItem (id number title : string) (children : option (list TocItem)).

Definition toc_id (t : TocItem) : string :=
  match t with mkTocItem id _ _ _ => id end.
Definition toc_number (t : TocItem) : string :=
  match t with mkTocItem _ number _ _ => number end.
Definition toc_title (t : TocItem) : string :=
  match t with mkTocItem _ _ title _ => title end.
Definition toc_children (t : TocItem) : option (list TocItem) :=
  match t with mkTocItem _ _ _ children => children end.

Record InfoRow : Type := mkInfoRow {
  row_label : string;
  row_value : string
}.

Record Infobox : Type := mkInfobox {
  infobox_title : string;
  infobox_image : option string;
  infobox_imageCaption : option string;
  infobox_rows : list InfoRow
}.

Record Subsection : Type := mkSubsection {
  sub_id : string;
  sub_title : string;
  sub_content : string
}.

Record Table : Type := mkTable {
  table_caption : option string;
  table_headers : list string;
  table_rows : list (list string)
}.

Record Column : Type := mkColumn {
  col_title : string;
  col_items : list string
}.

Record ExternalLink : Type := mkExternalLink {
  ext_title : string;
  ext_url : string
}.

Record ArticleSection : Type := mkSection {
  section_id : string;
  section_title : string;
  section_content : option string;
  section_subsections : option (list Subsection);
  section_table : option Table;
  section_columns : option (list Column);
  section_relatedLinks : option (list Link);
  section_references : option (list string);
  section_externalLinks : option (list ExternalLink)
}.

Record ArticleRecord : Type := mkArticle {
  title : string;
  intro : string;
  notice : option Notice;
  toc : list TocItem;
  infobox : option Infobox;
  sections : list ArticleSection;
  categories : list Link;
  lastModified : option string
}.

(* ================================================================= *)
(** ** WikiArticleRenderer *)

Module WikiArticleRenderer.

(** [renderNotice(notice)] *)
Definition renderNotice (notice : Notice) : string :=
  let typeClass := or_else (notice_type notice) "info" in
  ln 12 "<div class='article-notice " ++ typeClass ++ lit "'>" ++
  ln 16 "<span class='notice-icon'>" ++ or_else (notice_icon notice) "ℹ️" ++ lit "</span>" ++
  ln 16 "<div class='notice-content'>" ++
  ln 20 "<b>" ++ notice_title notice ++ lit "</b> " ++ notice_text notice ++
  ln 16 "</div>" ++
  ln 12 "</div>" ++
  ln 8 EmptyString.

(** The template literal that opens the table of contents. *)
Definition toc_open : string :=
  ln 12 "<div class='toc'>" ++
  ln 16 "<div class='toc-title'>" ++
  ln 20 "<span>目次</span>" ++
  ln 20 "<span class='toc-toggle' onclick='toggleToc()'>[非表示]</span>" ++
  ln 16 "</div>" ++
  ln 16 "<ul id='toc-list'>" ++
  ln 8 EmptyString.

(** The anchor both loops of [renderToc] write. *)
Definition toc_anchor (t : TocItem) : string :=
  lit "<a href='#" ++ toc_id t ++ lit "'><span class='toc-number'>" ++
  toc_number t ++ lit "</span> " ++ toc_title t ++ lit "</a>".

(** [item.children && item.children.length > 0] *)
Definition has_children (item : TocItem) : bool :=
  match toc_children item with
  | Some (_ :: _) => true
  | _ => false
  end.

(** The array the inner loop walks (only reached when [has_children]). *)
Definition children_array (item : TocItem) : list TocItem :=
  match toc_children item with
  | Some cs => cs
  | None => []
  end.

(** Body of the outer loop of [renderToc]. *)
Definition renderToc_item (html : string) (item : TocItem) : string :=
  let html := html ++ lit "<li>" ++ toc_anchor item in
  let html :=
    if has_children item then
      let html := html ++ "<ul>" in
      let html :=
        fold_left (fun html child => html ++ lit "<li>" ++ toc_anchor child ++ "</li>")
                  (children_array item) html in
      html ++ "</ul>"
    else html in
  html ++ "</li>".

(** [renderToc(tocItems)] *)
Definition renderToc (tocItems : list TocItem) : string :=
  let html := toc_open in
  let html := fold_left renderToc_item tocItems html in
  html ++ "</ul></div>".

(** The image row of the infobox. *)
Definition infobox_image_row (infobox : Infobox) : string :=
  ln 16 "<tr>" ++
  ln 20 "<td colspan='2' class='infobox-image'>" ++
  ln 24 "<div class='image-placeholder'>" ++
  ln 28 "<svg xmlns='http://www.w3.org/2000/svg' width='120' height='120' viewBox='0 0 24 24' fill='none' stroke='#666' stroke-width='1'>" ++
  ln 32 "<circle cx='12' cy='12' r='10'/>" ++
  ln 32 "<path d='M8 14s1.5 2 4 2 4-2 4-2'/>" ++
  ln 32 "<circle cx='9' cy='9' r='1' fill='#666'/>" ++
  ln 32 "<circle cx='15' cy='9' r='1' fill='#666'/>" ++
  ln 28 "</svg>" ++
  ln 28 "<p class='image-caption'>" ++ or_else (infobox_imageCaption infobox) EmptyString ++ lit "</p>" ++
  ln 24 "</div>" ++
  ln 20 "</td>" ++
  ln 16 "</tr>" ++
  ln 12 EmptyString.

(** [renderInfobox(infobox)] *)
Definition renderInfobox (infobox : Infobox) : string :=
  let html :=
    ln 12 "<div class='infobox'>" ++
    ln 16 "<table>" ++
    ln 20 "<tr class='infobox-header'>" ++
    ln 24 "<th colspan='2'>" ++ infobox_title infobox ++ lit "</th>" ++
    ln 20 "</tr>" ++
    ln 8 EmptyString in
  let html :=
    if truthy (infobox_image infobox) || truthy (infobox_imageCaption infobox)
    then html ++ infobox_image_row infobox
    else html in
  let html :=
    fold_left (fun html row =>
                 html ++
                 ln 16 "<tr>" ++
                 ln 20 "<th>" ++ row_label row ++ lit "</th>" ++
                 ln 20 "<td>" ++ row_value row ++ lit "</td>" ++
                 ln 16 "</tr>" ++
                 ln 12 EmptyString)
              (infobox_rows infobox) html in
  html ++ "</table></div>".

(** [renderTable(table)] *)
Definition renderTable (table : Table) : string :=
  let html := lit "<table class='wikitable'>" in
  let html :=
    if truthy (table_caption table)
    then html ++ "<caption>" ++ or_else (table_caption table) EmptyString ++ "</caption>"
    else html in
  let html := html ++ "<tr>" in
  let html :=
    fold_left (fun html header => html ++ "<th>" ++ header ++ "</th>")
              (table_headers table) html in
  let html := html ++ "</tr>" in
  let html :=
    fold_left (fun html row =>
                 let html := html ++ "<tr>" in
                 let html :=
                   fold_left (fun html cell => html ++ "<td>" ++ cell ++ "</td>")
                             row html in
                 html ++ "</tr>")
              (table_rows table) html in
  html ++ "</table>".

(** [renderColumns(columns)] *)
Definition renderColumns (columns : list Column) : string :=
  let html := lit "<div class='columns'>" in
  let html :=
    fold_left (fun html col =>
                 let html := html ++ lit "<div class='column'>" in
                 let html := html ++ "<h4>" ++ col_title col ++ "</h4><ul>" in
                 let html :=
                   fold_left (fun html item => html ++ "<li>" ++ item ++ "</li>")
                             (col_items col) html in
                 html ++ "</ul></div>")
              columns html in
  html ++ "</div>".

(** Body of the loop shared, word for word, by [renderRelatedLinks] and
    [renderCategories]. *)
Definition link_item (html : string) (link : Link) : string :=
  if is_linked link then
    html ++ lit "<li><a href='" ++ Link_url link ++ lit "' target='_blank'>" ++
    Link_title link ++ "</a></li>"
  else
    html ++ lit "<li><a href='#'>" ++ Link_toString link ++ "</a></li>".

(** [renderRelatedLinks(links)] *)
Definition renderRelatedLinks (links : list Link) : string :=
  let html := lit "<div class='related-links'><ul>" in
  let html := fold_left link_item links html in
  html ++ "</ul></div>".

(** [refs[i]]; reading past the end gives [undefined]. *)
Definition array_get (refs : list string) (i : nat) : string :=
  nth i refs "undefined".

(** [renderReferences(refs)]: the counted loop runs [i] over
    [0 .. refs.length - 1]. *)
Definition renderReferences (refs : list string) : string :=
  let html := lit "<div class='references'><ol>" in
  let html :=
    fold_left (fun html i =>
                 html ++ lit "<li id='ref" ++ string_of_nat (i + 1) ++
                 lit "'>^ <a href='#'>" ++ array_get refs i ++ "</a></li>")
              (seq 0 (length refs)) html in
  html ++ "</ol></div>".

(** [renderExternalLinks(links)] *)
Definition renderExternalLinks (links : list ExternalLink) : string :=
  let html := "<ul>" in
  let html :=
    fold_left (fun html link =>
                 html ++ lit "<li><a href='" ++ ext_url link ++
                 lit "' class='external'>" ++ ext_title link ++ "</a></li>")
              links html in
  html ++ "</ul>".

(** [renderCategories(categories)] *)
Definition renderCategories (categories : list Link) : string :=
  let html := lit "<div class='categories'><span class='categories-title'>カテゴリ:</span><ul>" in
  let html := fold_left link_item categories html in
  html ++ "</ul></div>".

(** The heading lines of [renderSection]. *)
Definition section_heading (section : ArticleSection) : string :=
  lit "<section id='" ++ section_id section ++ lit "'>" ++
  lit "<h2><span class='section-edit'>[<a href='#'>編集</a>]</span>" ++
  section_title section ++ "</h2>".

(** [renderSection(section)] *)
Definition renderSection (section : ArticleSection) : string :=
  let html := lit "<section id='" ++ section_id section ++ lit "'>" in
  let html :=
    html ++ lit "<h2><span class='section-edit'>[<a href='#'>編集</a>]</span>" ++
    section_title section ++ "</h2>" in
  let html :=
    if truthy (section_content section)
    then html ++ or_else (section_content section) EmptyString
    else html in
  let html :=
    match section_subsections section with
    | Some subsections =>
        fold_left (fun html sub =>
                     let html :=
                       html ++ lit "<h3 id='" ++ sub_id sub ++ lit "'>" ++
                       sub_title sub ++ "</h3>" in
                     html ++ sub_content sub)
                  subsections html
    | None => html
    end in
  let html :=
    match section_table section with
    | Some table => html ++ renderTable table
    | None => html
    end in
  let html :=
    match section_columns section with
    | Some columns => html ++ renderColumns columns
    | None => html
    end in
  let html :=
    match section_relatedLinks section with
    | Some links => html ++ renderRelatedLinks links
    | None => html
    end in
  let html :=
    match section_references section with
    | Some refs => html ++ renderReferences refs
    | None => html
    end in
  let html :=
    match section_externalLinks section with
    | Some links => html ++ renderExternalLinks links
    | None => html
    end in
  html ++ "</section>".

(** The string [renderArticle(data)] builds before it assigns it. *)
Definition renderArticle_html (data : ArticleRecord) : string :=
  let html := EmptyString in
  let html :=
    match notice data with
    | Some n => html ++ renderNotice n
    | None => html
    end in
  let html := html ++ lit "<h1 class='article-title'>" ++ title data ++ "</h1>" in
  let html :=
    html ++ lit "<div class='article-intro'><p>" ++ intro data ++ "</p></div>" in
  let html := html ++ renderToc (toc data) in
  let html :=
    match infobox data with
    | Some i => html ++ renderInfobox i
    | None => html
    end in
  let html := fold_left (fun html section => html ++ renderSection section)
                        (sections data) html in
  let html := html ++ renderCategories (categories data) in
  let html :=
    if truthy (lastModified data)
    then html ++ lit "<div class='last-modified'>最終更新 " ++
         or_else (lastModified data) EmptyString ++ "</div>"
    else html in
  html.

End WikiArticleRenderer.

(* ================================================================= *)
(** ** The document the parts loader writes into

    The document is the tree below its root element.  Selector matching
    is reduced to names: an element carries the one selector it answers
    to ([label]), and [querySelector] returns the first such element in
    tree order.  The nodes the HTML parser makes of a markup string are
    kept as one [Markup] node that holds the string.

    Two things the DOM does are outside this model.  An element of the
    DOM answers to many selectors (its tag, its id, each class, ...),
    here to one: two labels that differ name two elements here and may
    name one in the DOM.  Elements that fetched markup brings stay inside
    a [Markup] node, where no lookup finds them: a lookup made after an
    insertion finds the elements the document had before.  What is proved
    below of several entries either fixes one selector and one target, or
    holds for every outcome of every lookup. *)

Inductive Node : Type :=
| Element (label : string) (childNodes : list Node)
| Markup (html : string).

(** A reference to a node: the child indices from the root element. *)
Definition Path : Type := list nat.

Fixpoint node_at (p : Path) (n : Node) : option Node :=
  match p with
  | [] => Some n
  | i :: q =>
      match n with
      | Element _ cs =>
          match nth_error cs i with
          | Some c => node_at q c
          | None => None
          end
      | Markup _ => None
      end
  end.

(** First hit of [f] in a list of siblings, as a path from their parent. *)
Definition find_first (f : Node -> option Path) : list Node -> option Path :=
  fix scan (ns : list Node) : option Path :=
    match ns with
    | [] => None
    | c :: r =>
        match f c with
        | Some p => Some (0 :: p)
        | None =>
            match scan r with
            | Some (i :: p) => Some (S i :: p)
            | _ => None
            end
        end
    end.

(** First element in tree order that answers to [sel]. *)
Fixpoint find_in (sel : string) (n : Node) : option Path :=
  match n with
  | Markup _ => None
  | Element l cs =>
      if String.eqb l sel then Some [] else find_first (find_in sel) cs
  end.

(** Replace the [i]-th entry of a list by the entries [g] makes of it. *)
Fixpoint splice_nth (A : Type) (i : nat) (g : A -> list A) (l : list A) : list A :=
  match l, i with
  | [], _ => []
  | x :: r, O => g x ++ r
  | x :: r, S j => x :: splice_nth j g r
  end%list.

(** Replace the node at path [i :: q] below a list of siblings by [f] of it. *)
Fixpoint splice_in (f : Node -> list Node) (i : nat) (q : Path) (ns : list Node)
  {struct q} : list Node :=
  splice_nth i
    (fun n =>
       match q with
       | [] => f n
       | j :: q' =>
           match n with
           | Element l cs => [Element l (splice_in f j q' cs)]
           | Markup h => [Markup h]
           end
       end) ns.

(** Change the target node in place. *)
Definition map_target (g : Node -> Node) (target : Path) (doc : Node) : Node :=
  match target with
  | [] => g doc
  | i :: q =>
      match doc with
      | Element l cs => Element l (splice_in (fun n => [g n]) i q cs)
      | Markup _ => doc
      end
  end.

(** Put nodes where the target stands in its parent's child list; the root
    element has no parent element to hold them. *)
Definition splice_target (f : Node -> list Node) (target : Path) (doc : Node)
  : option Node :=
  match target with
  | [] => None
  | i :: q =>
      match doc with
      | Element l cs => Some (Element l (splice_in f i q cs))
      | Markup _ => Some doc
      end
  end.

Definition with_children (k : list Node -> list Node) (n : Node) : Node :=
  match n with
  | Element l cs => Element l (k cs)
  | Markup h => Markup h
  end.

(** The four values [PartsLoader] passes to [insertAdjacentHTML]. *)
Inductive Where : Type := beforebegin | afterbegin | beforeend | afterend.

(** Accessors of the DOM, on a node reference. *)
Definition childNodes (target : Path) (doc : Node) : option (list Node) :=
  match node_at target doc with
  | Some (Element _ cs) => Some cs
  | _ => None
  end.

Definition firstChild (target : Path) (doc : Node) : option Node :=
  match childNodes target doc with
  | Some (c :: _) => Some c
  | _ => None
  end.

Definition lastChild (target : Path) (doc : Node) : option Node :=
  match childNodes target doc with
  | Some (c :: r) => Some (last r c)
  | _ => None
  end.

(** The place [k] siblings to the right of a place. *)
Fixpoint shift (k : nat) (p : Path) : Path :=
  match p with
  | [] => []
  | i :: q =>
      match q with
      | [] => [k + i]
      | _ :: _ => i :: shift k q
      end
  end.

(** The place one sibling to the left, when there is one. *)
Fixpoint prev_path (p : Path) : option Path :=
  match p with
  | [] => None
  | i :: q =>
      match q with
      | [] => match i with
              | O => None
              | S j => Some [j]
              end
      | _ :: _ => option_map (cons i) (prev_path q)
      end
  end.

(** A place below a list of siblings. *)
Definition forest_at (p : Path) (ns : list Node) : option Node :=
  match p with
  | [] => None
  | i :: q =>
      match nth_error ns i with
      | Some c => node_at q c
      | None => None
      end
  end.

Definition previousSibling (target : Path) (doc : Node) : option Node :=
  match prev_path target with
  | Some p => node_at p doc
  | None => None
  end.

Definition nextSibling (target : Path) (doc : Node) : option Node :=
  match target with
  | [] => None
  | _ :: _ => node_at (shift 1 target) doc
  end.


(* ================================================================= *)
(** ** Effects: the page state, exceptions, settled promises *)

Record JSError : Type := mkError {
  error_name : string;
  error_message : string
}.

Inductive LogEntry : Type :=
| console_warn_entry (message : string)
| console_error_entry (message : string) (error : JSError).

Record Page : Type := mkPage {
  document : Node;
  console : list LogEntry
}.

Inductive Completion (A : Type) : Type :=
| Normal (a : A)
| Throw (e : JSError).
Arguments Normal {A} a.
Arguments Throw {A} e.

(** A computation on the page that returns or throws; what it did to the
    page before it threw stays done. *)
Definition M (A : Type) : Type := Page -> Completion A * Page.

Definition ret (A : Type) (a : A) : M A := fun st => (Normal a, st).

Definition bind (A B : Type) (c : M A) (k : A -> M B) : M B :=
  fun st =>
    match c st with
    | (Normal a, st') => k a st'
    | (Throw e, st') => (Throw e, st')
    end.

Definition throw (A : Type) (e : JSError) : M A := fun st => (Throw e, st).
Arguments throw {A} e.

Definition try_catch (A : Type) (body : M A) (handler : JSError -> M A) : M A :=
  fun st =>
    match body st with
    | (Normal a, st') => (Normal a, st')
    | (Throw e, st') => handler e st'
    end.

Declare Scope js_scope.
Delimit Scope js_scope with js.
Notation "x <- c ;; k" := (bind c (fun x => k))
  (at level 61, c at next level, right associativity) : js_scope.
Notation "c ;; k" := (bind c (fun _ => k))
  (at level 61, right associativity) : js_scope.
Open Scope js_scope.

(** How the promise of an [async] function settles. *)
Inductive Settled : Type :=
| Fulfilled
| Rejected (e : JSError).

Definition async (body : M unit) : Page -> Settled * Page :=
  fun st =>
    match body st with
    | (Normal _, st') => (Fulfilled, st')
    | (Throw e, st') => (Rejected e, st')
    end.

(** [Promise.all]: fulfilled when all are, rejected with the first
    rejection otherwise. *)
Fixpoint Promise_all (ps : list Settled) : Settled :=
  match ps with
  | [] => Fulfilled
  | Fulfilled :: r => Promise_all r
  | Rejected e :: _ => Rejected e
  end.

(** *** DOM and console operations *)

(** Selector syntax is the DOM's affair.  Two classes of selector strings
    are told apart here.  A simple selector is a type, id ([#name]) or
    class ([.name]) selector whose name starts with an ASCII letter and
    goes on with ASCII letters, digits, [-] and [_]: every DOM accepts
    it.  A malformed selector is one every DOM rejects with a
    [SyntaxError]: the empty string, a string that starts with a digit,
    and [#] or [.] followed by nothing, a digit, [#], [.] or a space. *)
Definition is_letter (c : ascii) : bool :=
  let n := nat_of_ascii c in
  (Nat.leb 65 n && Nat.leb n 90) || (Nat.leb 97 n && Nat.leb n 122).

Definition is_digit (c : ascii) : bool :=
  let n := nat_of_ascii c in Nat.leb 48 n && Nat.leb n 57.

Definition is_name_char (c : ascii) : bool :=
  is_letter c || is_digit c || Ascii.eqb c "-"%char || Ascii.eqb c "_"%char.

Fixpoint all_name_chars (s : string) : bool :=
  match s with
  | EmptyString => true
  | String c r => is_name_char c && all_name_chars r
  end.

Definition is_name (s : string) : bool :=
  match s with
  | EmptyString => false
  | String c r => is_letter c && all_name_chars r
  end.

Definition simple_selector (sel : string) : bool :=
  match sel with
  | EmptyString => false
  | String c r =>
      if Ascii.eqb c "#"%char || Ascii.eqb c "."%char then is_name r else is_name sel
  end.

Definition malformed_selector (sel : string) : bool :=
  match sel with
  | EmptyString => true
  | String c r =>
      if is_digit c then true
      else if Ascii.eqb c "#"%char || Ascii.eqb c "."%char then
        match r with
        | EmptyString => true
        | String d _ =>
            is_digit d || Ascii.eqb d "#"%char || Ascii.eqb d "."%char || Ascii.eqb d " "%char
        end
      else false
  end.

(** The error a DOM throws for a selector it cannot parse.  The name is
    the DOM's; the wording of the message differs between engines. *)
Definition selector_SyntaxError (sel : string) : JSError :=
  mkError "SyntaxError" ("'" ++ sel ++ "' is not a valid selector.").

(** [document.querySelector(sel)]: the first element that answers to
    [sel], [null] when there is none, and a [SyntaxError] for a malformed
    selector.  The label of an element is a selector the element answers
    to, so a selector that finds an element is one the DOM accepts.  For
    a selector that is neither found, simple nor malformed the DOM's
    verdict on its syntax is not modelled and [null] is returned: what is
    proved of a lookup that finds nothing is proved either for both
    outcomes or for the simple and the malformed selectors. *)
Definition querySelector (sel : string) : M (option Path) :=
  fun st =>
    match find_in sel (document st) with
    | Some target => (Normal (Some target), st)
    | None =>
        if malformed_selector sel
        then (Throw (selector_SyntaxError sel), st)
        else (Normal None, st)
    end.

Definition set_document (d : Node) : M unit :=
  fun st => (Normal tt, mkPage d (console st)).

(** [target.innerHTML = html] *)
Definition set_innerHTML (target : Path) (html : string) : M unit :=
  fun st =>
    set_document
      (map_target (with_children (fun _ => [Markup html])) target (document st)) st.

Definition NoModificationAllowedError : JSError :=
  mkError "NoModificationAllowedError" "The element has no parent.".

(** [target.insertAdjacentHTML(where, html)]; [beforebegin] and [afterend]
    throw when the target's parent is the document itself. *)
Definition insertAdjacentHTML (target : Path) (w : Where) (html : string) : M unit :=
  fun st =>
    match w with
    | afterbegin =>
        set_document
          (map_target (with_children (fun cs => Markup html :: cs)) target (document st)) st
    | beforeend =>
        set_document
          (map_target (with_children (fun cs => cs ++ [Markup html])%list) target (document st)) st
    | beforebegin =>
        match splice_target (fun n => [Markup html; n]) target (document st) with
        | Some d => set_document d st
        | None => throw NoModificationAllowedError st
        end
    | afterend =>
        match splice_target (fun n => [n; Markup html]) target (document st) with
        | Some d => set_document d st
        | None => throw NoModificationAllowedError st
        end
    end.

Definition console_warn (message : string) : M unit :=
  fun st => (Normal tt, mkPage (document st) (console st ++ [console_warn_entry message])%list).

Definition console_error (message : string) (e : JSError) : M unit :=
  fun st => (Normal tt, mkPage (document st) (console st ++ [console_error_entry message e])%list).

(** *** The network *)

(** How one [fetch] call ends: the promise rejects (network failure), or a
    response arrives with its [ok] flag and body text. *)
Inductive FetchOutcome : Type :=
| NetworkError (e : JSError)
| Response (ok : bool) (text : string).

Definition fetch_failed (r : FetchOutcome) : bool :=
  match r with
  | NetworkError _ => true
  | Response ok _ => negb ok
  end.

Definition await_fetch (r : FetchOutcome) : M (bool * string) :=
  match r with
  | NetworkError e => throw e
  | Response ok text => ret (ok, text)
  end.

(* ================================================================= *)
(** ** PartsLoader *)

(** One entry of the array given to [loadParts]. *)
Record Part : Type := mkPart {
  path : string;
  selector : string;
  position : option string
}.

Module PartsLoader.

(** What [loadPart] does inside its [try] block once [fetch(partPath)] has
    settled as [r]. *)
Definition loadPart_try (r : FetchOutcome)
  (partPath targetSelector insertPosition : string) : M unit :=
  response <- await_fetch r ;;
  if negb (fst response) then
    throw (mkError "Error" ("パーツの読み込みに失敗: " ++ partPath))
  else
    let html := snd response in
    target <- querySelector targetSelector ;;
    match target with
    | None => console_warn ("ターゲット要素が見つかりません: " ++ targetSelector)
    | Some target =>
        if insertPosition =? "append" then
          insertAdjacentHTML target beforeend html
        else if insertPosition =? "prepend" then
          insertAdjacentHTML target afterbegin html
        else if insertPosition =? "before" then
          insertAdjacentHTML target beforebegin html
        else if insertPosition =? "after" then
          insertAdjacentHTML target afterend html
        else
          set_innerHTML target html
    end.

(** [loadPart(partPath, targetSelector, insertPosition = 'replace')], from
    the moment its fetch settles. *)
Definition loadPart (r : FetchOutcome) (partPath targetSelector : string)
  (insertPosition : option string) : Page -> Settled * Page :=
  let insertPosition :=
    match insertPosition with
    | Some p => p
    | None => "replace"
    end in
  async
    (try_catch
       (loadPart_try r partPath targetSelector insertPosition)
       (fun error => console_error "パーツ読み込みエラー:" error)).

(** The call [loadParts] makes for one entry, with the outcome of its
    fetch. *)
Definition call (job : Part * FetchOutcome) : Page -> Settled * Page :=
  let part := fst job in
  loadPart (snd job) (path part) (selector part)
           (Some (or_else (position part) "replace")).

(** All calls are started at once; each one runs to its end, without
    interleaving, when its fetch has settled.  [order] lists the calls in
    the order in which they get to run. *)
Fixpoint run (order : list (Part * FetchOutcome)) (st : Page) : list Settled * Page :=
  match order with
  | [] => ([], st)
  | job :: rest =>
      let (p, st1) := call job st in
      let (ps, st2) := run rest st1 in
      (p :: ps, st2)
  end.

(** [loadParts(parts)]: [await Promise.all(promises)]. *)
Definition loadParts (order : list (Part * FetchOutcome)) (st : Page) : Settled * Page :=
  let (ps, st') := run order st in
  (Promise_all ps, st').

End PartsLoader.

(** [renderArticle(data)] assigns the markup to the article container. *)
Definition renderArticle (data : ArticleRecord) (articleContainer : Node) : Node :=
  with_children (fun _ => [Markup (WikiArticleRenderer.renderArticle_html data)])
                articleContainer.

(* ================================================================= *)
(** ** Sample data *)

Definition sample_doc : Node :=
  Element "html"
    [Element "body"
       [Element "#header-placeholder" [];
        Element "#main" [Element "#sidebar-placeholder" [Markup "loading"];
                         Element "#article-content" []];
        Element "#footer-placeholder" [Markup "old footer"]]].

Definition sample_page : Page := mkPage sample_doc [].


(* ================================================================= *)
(** ** What the specification says, in its own terms *)

(** Blocks written one after the other. *)
Definition join (blocks : list string) : string :=
  fold_right append EmptyString blocks.

Definition title_heading (t : string) : string :=
  lit "<h1 class='article-title'>" ++ t ++ "</h1>".

Definition intro_paragraph (i : string) : string :=
  lit "<div class='article-intro'><p>" ++ i ++ "</p></div>".

Definition last_modified_line (d : string) : string :=
  lit "<div class='last-modified'>最終更新 " ++ d ++ "</div>".

(** Steps 1 to 5 of the emission order. *)
Definition article_head (data : ArticleRecord) : string :=
  match notice data with
  | Some n => WikiArticleRenderer.renderNotice n
  | None => EmptyString
  end ++
  title_heading (title data) ++
  intro_paragraph (intro data) ++
  WikiArticleRenderer.renderToc (toc data) ++
  match infobox data with
  | Some i => WikiArticleRenderer.renderInfobox i
  | None => EmptyString
  end.

(** Steps 7 and 8 of the emission order. *)
Definition article_tail (data : ArticleRecord) : string :=
  WikiArticleRenderer.renderCategories (categories data) ++
  if truthy (lastModified data)
  then last_modified_line (or_else (lastModified data) EmptyString)
  else EmptyString.

(** The block of an optional field: nothing when the field is absent. *)
Definition opt_block (A : Type) (block : A -> string) (o : option A) : string :=
  match o with
  | Some a => block a
  | None => EmptyString
  end.

Definition subsection_block (sub : Subsection) : string :=
  lit "<h3 id='" ++ sub_id sub ++ lit "'>" ++ sub_title sub ++ "</h3>" ++
  sub_content sub.

(** What a section block holds between its heading and its closing tag. *)
Definition section_body (section : ArticleSection) : string :=
  (if truthy (section_content section)
   then or_else (section_content section) EmptyString
   else EmptyString) ++
  opt_block (fun subs => join (map subsection_block subs))
            (section_subsections section) ++
  opt_block WikiArticleRenderer.renderTable (section_table section) ++
  opt_block WikiArticleRenderer.renderColumns (section_columns section) ++
  opt_block WikiArticleRenderer.renderRelatedLinks (section_relatedLinks section) ++
  opt_block WikiArticleRenderer.renderReferences (section_references section) ++
  opt_block WikiArticleRenderer.renderExternalLinks (section_externalLinks section).

(** A list entry of the table of contents at depth 2: the anchor alone. *)
Definition toc_child_entry (child : TocItem) : string :=
  lit "<li>" ++ WikiArticleRenderer.toc_anchor child ++ "</li>".

(** A list entry at depth 1: the anchor, then one nested list when the item
    has children. *)
Definition toc_entry (item : TocItem) : string :=
  lit "<li>" ++ WikiArticleRenderer.toc_anchor item ++
  match toc_children item with
  | Some (c :: cs) => "<ul>" ++ join (map toc_child_entry (c :: cs)) ++ "</ul>"
  | _ => EmptyString
  end ++ "</li>".

(** A toc item without its [children] field. *)
Definition without_children (t : TocItem) : TocItem :=
  mkTocItem (toc_id t) (toc_number t) (toc_title t) None.

(** A toc item whose children have lost their own [children] field. *)
Definition two_levels (t : TocItem) : TocItem :=
  mkTocItem (toc_id t) (toc_number t) (toc_title t)
            (option_map (map without_children) (toc_children t)).

(** The entry of the references list with the given 1-based ordinal. *)
Definition ref_entry (ordinal : nat) (text : string) : string :=
  lit "<li id='ref" ++ string_of_nat ordinal ++ lit "'>^ <a href='#'>" ++
  text ++ "</a></li>".

(** Entries for [refs], the first of them numbered [start + 1]. *)
Fixpoint ref_entries (start : nat) (refs : list string) : list string :=
  match refs with
  | [] => []
  | r :: rest => ref_entry (start + 1) r :: ref_entries (S start) rest
  end.

Definition references_open : string := lit "<div class='references'><ol>".
Definition references_close : string := "</ol></div>".

(** A category entry as the specification describes it: text links to [#],
    a record links to its url and opens in a new context. *)
Definition category_anchor (c : Link) : string :=
  match c with
  | LinkText s => lit "<li><a href='#'>" ++ s ++ "</a></li>"
  | LinkRecord t u =>
      lit "<li><a href='" ++ u ++ lit "' target='_blank'>" ++ t ++ "</a></li>"
  end.

Definition categories_open : string :=
  lit "<div class='categories'><span class='categories-title'>カテゴリ:</span><ul>".
Definition categories_close : string := "</ul></div>".

(** The claim on categories, for one list. *)
Definition categories_as_specified (cats : list Link) : Prop :=
  WikiArticleRenderer.renderCategories cats =
  categories_open ++ join (map category_anchor cats) ++ categories_close.

(** A record entry whose url is the empty string fails the test
    [cat.url] of the renderer. *)
Definition url_given (c : Link) : Prop :=
  match c with
  | LinkText _ => True
  | LinkRecord _ u => u <> EmptyString
  end.

(** The notice box with a given class and icon. *)
Definition notice_box (class icon title text : string) : string :=
  ln 12 "<div class='article-notice " ++ class ++ lit "'>" ++
  ln 16 "<span class='notice-icon'>" ++ icon ++ lit "</span>" ++
  ln 16 "<div class='notice-content'>" ++
  ln 20 "<b>" ++ title ++ lit "</b> " ++ text ++
  ln 16 "</div>" ++
  ln 12 "</div>" ++
  ln 8 EmptyString.

(** The value of an optional field, or a default when the field is absent. *)
Definition present_or (o : option string) (d : string) : string :=
  match o with
  | Some s => s
  | None => d
  end.

Definition default_icon : string := "ℹ️".

(** The claim on the notice box, for one notice. *)
Definition notice_as_specified (n : Notice) : Prop :=
  WikiArticleRenderer.renderNotice n =
  notice_box (present_or (notice_type n) "info")
             (present_or (notice_icon n) default_icon)
             (notice_title n) (notice_text n).

(* ================================================================= *)
(** ** The parts loader, in the terms of the specification *)

Definition load_error : string := "パーツ読み込みエラー:".

(** The change one position value makes to the document, for a fetched
    text and a resolved target; [None] when the DOM refuses it. *)
Definition place (insertPosition html : string) (target : Path) (doc : Node)
  : option Node :=
  if insertPosition =? "append" then
    Some (map_target (with_children (fun cs => cs ++ [Markup html])%list) target doc)
  else if insertPosition =? "prepend" then
    Some (map_target (with_children (fun cs => Markup html :: cs)) target doc)
  else if insertPosition =? "before" then
    splice_target (fun n => [Markup html; n]) target doc
  else if insertPosition =? "after" then
    splice_target (fun n => [n; Markup html]) target doc
  else
    Some (map_target (with_children (fun _ => [Markup html])) target doc).

(** The document after [loadPart] ran for a fetch that brought [html]. *)
Definition document_after (insertPosition : option string)
  (partPath sel html : string) (st : Page) : Node :=
  document (snd (PartsLoader.loadPart (Response true html) partPath sel insertPosition st)).

(** The five position values the specification names. *)
Definition recognized (insertPosition : string) : Prop :=
  In insertPosition ["replace"; "append"; "prepend"; "before"; "after"].

(** The claim on the five positions as the specification pairs them:
    [append] with the first child, [prepend] with the last. *)
Definition positions_as_specified (doc : Node) (sel html : string) : Prop :=
  forall target,
    find_in sel doc = Some target ->
    let after pos := document_after (Some pos) "part.html" sel html (mkPage doc []) in
    childNodes target (after "replace") = Some [Markup html]
    /\ firstChild target (after "append") = Some (Markup html)
    /\ lastChild target (after "prepend") = Some (Markup html)
    /\ (exists t, find_in sel (after "before") = Some t /\
                  previousSibling t (after "before") = Some (Markup html))
    /\ (exists t, find_in sel (after "after") = Some t /\
                  nextSibling t (after "after") = Some (Markup html)).

(** The claim on [before] and [after], for every target that exists. *)
Definition siblings_as_specified (doc : Node) (sel html : string) : Prop :=
  forall target,
    find_in sel doc = Some target ->
    let after pos := document_after (Some pos) "part.html" sel html (mkPage doc []) in
    (exists t, find_in sel (after "before") = Some t /\
               previousSibling t (after "before") = Some (Markup html) /\
               childNodes t (after "before") = childNodes target doc)
    /\ (exists t, find_in sel (after "after") = Some t /\
                  nextSibling t (after "after") = Some (Markup html) /\
                  childNodes t (after "after") = childNodes target doc).











Definition minimal_article : ArticleRecord :=
  mkArticle "T" "I" None [] None
            [mkSection "s1" "One" None None None None None None None]
            [LinkText "c"] None.

(* ================================================================= *)
(** ** The rest of [app.js]: loading an article, the toc toggle *)

(** The markup [showError(message)] assigns. *)
Definition showError_html (message : string) : string :=
  ln 12 "<div class='notice-box warning'>" ++
  ln 16 "<p><strong>エラー:</strong> " ++ message ++ lit "</p>" ++
  ln 16 "<p>記事が見つかりませんでした。</p>" ++
  ln 12 "</div>" ++
  ln 8 EmptyString.

(** What [loadArticle] works on: the element the constructor found for
    [article-content] ([None] when [getElementById] gave [null]), the
    title of the document, and the console. *)
Record ArticleView : Type := mkView {
  view_container : option Node;
  view_title : string;
  view_console : list LogEntry
}.

(** How the fetch of the article ends: the promise rejects; a response
    arrives that is not [ok], with its status; the response is [ok] but
    reading its body as JSON rejects; the body is an article record. *)
Inductive ArticleResponse : Type :=
| FetchRejected (e : JSError)
| HttpStatus (status : nat)
| BodyRejected (e : JSError)
| Body (articleData : ArticleRecord).

(** Assigning [innerHTML] through a [null] reference. *)
Definition null_container_error : JSError :=
  mkError "TypeError" "Cannot set properties of null (setting 'innerHTML')".

(** [this.articleContainer.innerHTML = html] *)
Definition set_container_innerHTML (html : string) (v : ArticleView)
  : Completion unit * ArticleView :=
  match view_container v with
  | Some c =>
      (Normal tt,
       mkView (Some (with_children (fun _ => [Markup html]) c))
              (view_title v) (view_console v))
  | None => (Throw null_container_error, v)
  end.

(** [showError(message)] *)
Definition showError (message : string) (v : ArticleView)
  : Completion unit * ArticleView :=
  set_container_innerHTML (showError_html message) v.

(** The [try] block of [loadArticle], from the moment the fetch has
    ended as [r]. *)
Definition loadArticle_try (r : ArticleResponse) (v : ArticleView)
  : Completion unit * ArticleView :=
  match r with
  | FetchRejected e => (Throw e, v)
  | HttpStatus status =>
      (Throw (mkError "Error"
                ("記事の読み込みに失敗しました: " ++ string_of_nat status)), v)
  | BodyRejected e => (Throw e, v)
  | Body articleData =>
      match set_container_innerHTML
              (WikiArticleRenderer.renderArticle_html articleData) v with
      | (Normal _, v1) =>
          (Normal tt,
           mkView (view_container v1)
                  (title articleData ++ " - ワィキペディア")
                  (view_console v1))
      | (Throw e, v1) => (Throw e, v1)
      end
  end.

(** [loadArticle(jsonPath)], for the outcome [r] of fetching [jsonPath]. *)
Definition loadArticle (r : ArticleResponse) (v : ArticleView)
  : Settled * ArticleView :=
  match loadArticle_try r v with
  | (Normal _, v1) => (Fulfilled, v1)
  | (Throw error, v1) =>
      let v2 :=
        mkView (view_container v1) (view_title v1)
               (view_console v1 ++ [console_error_entry "エラー:" error])%list in
      match showError (error_message error) v2 with
      | (Normal _, v3) => (Fulfilled, v3)
      | (Throw e, v3) => (Rejected e, v3)
      end
  end.

(** The error [loadArticle] catches when the fetch does not bring an
    article. *)
Definition load_failure (r : ArticleResponse) : option JSError :=
  match r with
  | FetchRejected e => Some e
  | HttpStatus status =>
      Some (mkError "Error"
              ("記事の読み込みに失敗しました: " ++ string_of_nat status))
  | BodyRejected e => Some e
  | Body _ => None
  end.

(** What [toggleToc] reads and writes: [style.display] of the list and
    [textContent] of the toggle. *)
Record TocView : Type := mkTocView {
  tocList_display : string;
  toggle_textContent : string
}.

(** [toggleToc()] *)
Definition toggleToc (s : TocView) : TocView :=
  if tocList_display s =? "none"
  then mkTocView "block" "[非表示]"
  else mkTocView "none" "[表示]".

Definition toc_hidden (s : TocView) : bool := tocList_display s =? "none".

(* ================================================================= *)
(** ** Blocks and variants used to state further properties *)

(** A toc item whose [children] array, when empty, is taken away. *)
Definition drop_empty_children (t : TocItem) : TocItem :=
  match toc_children t with
  | Some [] => mkTocItem (toc_id t) (toc_number t) (toc_title t) None
  | _ => t
  end.



Definition table_row_block (row : list string) : string :=
  "<tr>" ++ join (map (fun cell => "<td>" ++ cell ++ "</td>") row) ++ "</tr>".

Definition column_block (col : Column) : string :=
  lit "<div class='column'>" ++ "<h4>" ++ col_title col ++ "</h4><ul>" ++
  join (map (fun item => "<li>" ++ item ++ "</li>") (col_items col)) ++
  "</ul></div>".

(** The list item both link loops write for one entry. *)
Definition link_block (link : Link) : string :=
  match link with
  | LinkText s => lit "<li><a href='#'>" ++ s ++ "</a></li>"
  | LinkRecord t EmptyString => lit "<li><a href='#'>" ++ "[object Object]" ++ "</a></li>"
  | LinkRecord t u =>
      lit "<li><a href='" ++ u ++ lit "' target='_blank'>" ++ t ++ "</a></li>"
  end.

Definition external_link_block (link : ExternalLink) : string :=
  lit "<li><a href='" ++ ext_url link ++ lit "' class='external'>" ++
  ext_title link ++ "</a></li>".

(** The value of the [id] attribute of the entry at index [i]. *)
Definition ref_id (i : nat) : string := "ref" ++ string_of_nat (i + 1).

(** Sections and records with one field changed. *)
Definition with_content (o : option string) (s : ArticleSection) : ArticleSection :=
  mkSection (section_id s) (section_title s) o (section_subsections s)
            (section_table s) (section_columns s) (section_relatedLinks s)
            (section_references s) (section_externalLinks s).

Definition with_subsections (o : option (list Subsection)) (s : ArticleSection)
  : ArticleSection :=
  mkSection (section_id s) (section_title s) (section_content s) o
            (section_table s) (section_columns s) (section_relatedLinks s)
            (section_references s) (section_externalLinks s).

Definition with_columns (o : option (list Column)) (s : ArticleSection)
  : ArticleSection :=
  mkSection (section_id s) (section_title s) (section_content s)
            (section_subsections s) (section_table s) o (section_relatedLinks s)
            (section_references s) (section_externalLinks s).

Definition with_relatedLinks (o : option (list Link)) (s : ArticleSection)
  : ArticleSection :=
  mkSection (section_id s) (section_title s) (section_content s)
            (section_subsections s) (section_table s) (section_columns s) o
            (section_references s) (section_externalLinks s).

Definition with_references (o : option (list string)) (s : ArticleSection)
  : ArticleSection :=
  mkSection (section_id s) (section_title s) (section_content s)
            (section_subsections s) (section_table s) (section_columns s)
            (section_relatedLinks s) o (section_externalLinks s).

Definition with_externalLinks (o : option (list ExternalLink)) (s : ArticleSection)
  : ArticleSection :=
  mkSection (section_id s) (section_title s) (section_content s)
            (section_subsections s) (section_table s) (section_columns s)
            (section_relatedLinks s) (section_references s) o.

Definition with_lastModified (o : option string) (data : ArticleRecord)
  : ArticleRecord :=
  mkArticle (title data) (intro data) (notice data) (toc data) (infobox data)
            (sections data) (categories data) o.

(** The entries of a run whose fetch did not fail. *)
Definition fetched (order : list (Part * FetchOutcome)) : list (Part * FetchOutcome) :=
  filter (fun job => negb (fetch_failed (snd job))) order.

(** Position values that change the target element itself or its
    children, not its siblings. *)
Definition in_place_position (insertPosition : string) : Prop :=
  insertPosition <> "before" /\ insertPosition <> "after".

(* ================================================================= *)
(** ** The blocks of a minimal record, written out *)

(** The toc container around its entries: a box of class [toc] that holds
    the title bar (the word 目次 and the toggle) and the list [toc-list]. *)
Definition toc_container (entries : string) : string :=
  ln 12 "<div class='toc'>" ++
  ln 16 "<div class='toc-title'>" ++
  ln 20 "<span>目次</span>" ++
  ln 20 "<span class='toc-toggle' onclick='toggleToc()'>[非表示]</span>" ++
  ln 16 "</div>" ++
  ln 16 "<ul id='toc-list'>" ++
  ln 8 EmptyString ++
  entries ++
  "</ul></div>".

(** The link of a toc entry: to the fragment [id], showing the number and
    the title. *)
Definition toc_link (id number title : string) : string :=
  lit "<a href='#" ++ id ++ lit "'><span class='toc-number'>" ++
  number ++ lit "</span> " ++ title ++ lit "</a>".

(** The list item of a toc entry, with the nested list of its children. *)
Definition toc_item_block (item : TocItem) : string :=
  lit "<li>" ++ toc_link (toc_id item) (toc_number item) (toc_title item) ++
  match toc_children item with
  | Some (c :: cs) =>
      "<ul>" ++
      join (map (fun child =>
                   lit "<li>" ++
                   toc_link (toc_id child) (toc_number child) (toc_title child) ++
                   "</li>")
                (c :: cs)) ++
      "</ul>"
  | _ => EmptyString
  end ++ "</li>".

(** The categories block: a box of class [categories] that holds the
    title カテゴリ: and the list of the entries. *)
Definition categories_block (cats : list Link) : string :=
  lit "<div class='categories'><span class='categories-title'>カテゴリ:</span><ul>" ++
  join (map link_block cats) ++
  "</ul></div>".

(* ================================================================= *)
(** * Properties *)

(** ** Strings *)

Lemma append_nil_r (s : string) : s ++ EmptyString = s.
Proof. induction s as [|c s IH]; simpl; [reflexivity | now rewrite IH]. Qed.

Lemma append_assoc (a b c : string) : (a ++ b) ++ c = a ++ (b ++ c).
Proof. induction a as [|x a IH]; simpl; [reflexivity | now rewrite IH]. Qed.

Lemma join_app (l1 l2 : list string) :
  join (l1 ++ l2)%list = join l1 ++ join l2.
Proof.
  induction l1 as [|x l1 IH]; simpl; [reflexivity|].
  now rewrite IH, append_assoc.
Qed.

(** A loop whose body appends one block per entry writes the blocks in
    the order of the array. *)
Lemma fold_left_blocks (A : Type) (step : string -> A -> string) (block : A -> string) :
  (forall html x, step html x = html ++ block x) ->
  forall (l : list A) (html : string),
    fold_left step l html = html ++ join (map block l).
Proof.
  intros Hstep l. induction l as [|x l IH]; intros html; simpl.
  - now rewrite append_nil_r.
  - rewrite IH, Hstep, append_assoc. reflexivity.
Qed.


(** ** The article renderer *)

Section Renderer.
Import WikiArticleRenderer.

Lemma renderToc_item_block (html : string) (item : TocItem) :
  renderToc_item html item = html ++ toc_entry item.
Proof.
  unfold renderToc_item, toc_entry, has_children, children_array.
  destruct (toc_children item) as [[|c cs]|].
  - now rewrite !append_assoc.
  - rewrite (fold_left_blocks _ toc_child_entry) by reflexivity.
    now rewrite !append_assoc.
  - now rewrite !append_assoc.
Qed.

Lemma renderToc_blocks (tocItems : list TocItem) :
  renderToc tocItems = toc_open ++ join (map toc_entry tocItems) ++ "</ul></div>".
Proof.
  unfold renderToc.
  rewrite (fold_left_blocks _ toc_entry) by apply renderToc_item_block.
  now rewrite append_assoc.
Qed.

Lemma toc_anchor_without_children (t : TocItem) :
  toc_anchor (without_children t) = toc_anchor t.
Proof. destruct t; reflexivity. Qed.

Lemma toc_child_entry_without_children (cs : list TocItem) :
  map toc_child_entry (map without_children cs) = map toc_child_entry cs.
Proof.
  rewrite map_map. apply map_ext. intros c. unfold toc_child_entry.
  now rewrite toc_anchor_without_children.
Qed.

Lemma toc_entry_two_levels (item : TocItem) :
  toc_entry (two_levels item) = toc_entry item.
Proof.
  destruct item as [i n t [[|c cs]|]]; try reflexivity.
  unfold toc_entry, two_levels. cbn [toc_children option_map].
  rewrite <- (toc_child_entry_without_children (c :: cs)).
  reflexivity.
Qed.

Lemma renderSection_heading (section : ArticleSection) :
  renderSection section =
  section_heading section ++ section_body section ++ "</section>".
Proof.
  unfold renderSection, section_heading, section_body, opt_block, subsection_block.
  cbv zeta.
  destruct (truthy (section_content section));
    destruct (section_subsections section) as [subs|];
    try rewrite (fold_left_blocks _
                   (fun sub => lit "<h3 id='" ++ sub_id sub ++ lit "'>" ++
                               sub_title sub ++ "</h3>" ++ sub_content sub))
      by (intros; now rewrite !append_assoc);
    destruct (section_table section) as [t|];
    destruct (section_columns section) as [c|];
    destruct (section_relatedLinks section) as [r|];
    destruct (section_references section) as [f|];
    destruct (section_externalLinks section) as [e|];
    repeat rewrite append_assoc; reflexivity.
Qed.

Lemma renderArticle_html_parts (data : ArticleRecord) :
  renderArticle_html data =
  article_head data ++ join (map renderSection (sections data)) ++ article_tail data.
Proof.
  unfold renderArticle_html, article_head, article_tail,
    title_heading, intro_paragraph, last_modified_line.
  rewrite (fold_left_blocks _ renderSection) by reflexivity.
  destruct (notice data) as [n|]; destruct (infobox data) as [i|];
    destruct (truthy (lastModified data));
    repeat rewrite append_assoc; repeat rewrite append_nil_r;
    cbn [append]; reflexivity.
Qed.

Lemma link_item_any (html : string) (link : Link) :
  link_item html link = html ++ link_block link.
Proof. destruct link as [s|t [|a u]]; reflexivity. Qed.

Lemma toc_container_blocks (tocItems : list TocItem) :
  renderToc tocItems = toc_container (join (map toc_item_block tocItems)).
Proof. rewrite renderToc_blocks. reflexivity. Qed.

Lemma categories_block_blocks (cats : list Link) :
  renderCategories cats = categories_block cats.
Proof.
  unfold renderCategories, categories_block. cbv zeta.
  rewrite (fold_left_blocks _ link_block) by apply link_item_any.
  now rewrite append_assoc.
Qed.

(** C1. A record with only its required fields ([notice], [infobox] and
    [lastModified] absent) renders to exactly the title heading, the intro
    paragraph, the toc container, the section blocks and the categories
    block, in that order and with nothing else: no notice box, no infobox,
    no last-modified line.  The toc container is the box of class [toc]
    with its title bar and its list around the entries, and it is written,
    with an empty list, when [toc] is empty; the categories block is the
    box of class [categories] with its title and one list item per
    category.  These are the blocks [renderToc] and [renderCategories]
    return, and every section block starts with the section's heading. *)
Theorem render_minimal_record (data : ArticleRecord) :
  notice data = None ->
  infobox data = None ->
  lastModified data = None ->
  renderArticle_html data =
    title_heading (title data) ++
    intro_paragraph (intro data) ++
    toc_container (join (map toc_item_block (toc data))) ++
    join (map renderSection (sections data)) ++
    categories_block (categories data)
  /\ (toc data = [] ->
      renderArticle_html data =
        title_heading (title data) ++
        intro_paragraph (intro data) ++
        toc_container EmptyString ++
        join (map renderSection (sections data)) ++
        categories_block (categories data))
  /\ renderToc (toc data) = toc_container (join (map toc_item_block (toc data)))
  /\ renderCategories (categories data) = categories_block (categories data)
  /\ (forall section : ArticleSection,
        renderSection section =
        section_heading section ++ section_body section ++ "</section>").
Proof.
  intros Hn Hi Hl.
  assert (Hmain : renderArticle_html data =
                  title_heading (title data) ++
                  intro_paragraph (intro data) ++
                  toc_container (join (map toc_item_block (toc data))) ++
                  join (map renderSection (sections data)) ++
                  categories_block (categories data)).
  { rewrite renderArticle_html_parts. unfold article_head, article_tail.
    rewrite Hn, Hi, Hl, toc_container_blocks, categories_block_blocks.
    cbn [truthy]. change (EmptyString ++ ?x) with x.
    repeat rewrite append_assoc. repeat rewrite append_nil_r. reflexivity. }
  repeat split.
  - exact Hmain.
  - intros Ht. rewrite Hmain, Ht. reflexivity.
  - apply toc_container_blocks.
  - apply categories_block_blocks.
  - apply renderSection_heading.
Qed.

Lemma render_minimal_record_witness :
  renderArticle_html minimal_article =
    title_heading "T" ++ intro_paragraph "I" ++ toc_container EmptyString ++
    join (map renderSection (sections minimal_article)) ++
    categories_block [LinkText "c"].
Proof.
  exact (proj1 (render_minimal_record minimal_article eq_refl eq_refl eq_refl)).
Defined.

(** C2. A parent with two children renders as one outer list item that
    holds a nested list of two items; and for every toc the output is the
    one of the same toc in which the children have lost their own
    [children] field: what a depth-2 child carries there is ignored, so no
    third level is ever written. *)
Theorem renderToc_two_levels :
  (forall (id number title : string) (c1 c2 : TocItem),
      let parent := mkTocItem id number title (Some [c1; c2]) in
      renderToc [parent] =
        toc_open ++
        (lit "<li>" ++ toc_anchor parent ++
           "<ul>" ++
             (lit "<li>" ++ toc_anchor c1 ++ "</li>") ++
             (lit "<li>" ++ toc_anchor c2 ++ "</li>") ++
           "</ul>" ++
         "</li>") ++
        "</ul></div>")
  /\ (forall tocItems : list TocItem,
        renderToc tocItems = renderToc (map two_levels tocItems)).
Proof.
  split.
  - intros id number title c1 c2 parent. rewrite renderToc_blocks.
    cbn [map join fold_right]. unfold toc_entry, parent.
    cbn [toc_children map join fold_right]. unfold toc_child_entry.
    repeat rewrite append_assoc. repeat rewrite append_nil_r. reflexivity.
  - intros tocItems. rewrite !renderToc_blocks, map_map.
    f_equal. f_equal. f_equal. apply map_ext. intros item.
    now rewrite toc_entry_two_levels.
Qed.

Lemma ref_entries_app (k : nat) (a b : list string) :
  ref_entries k (a ++ b)%list = (ref_entries k a ++ ref_entries (k + length a) b)%list.
Proof.
  revert k. induction a as [|x a IH]; intros k; simpl.
  - now rewrite Nat.add_0_r.
  - rewrite IH. now replace (k + S (length a)) with (S k + length a) by lia.
Qed.

(** The counted loop reads [refs[i]] for [i] below [refs.length] only, so
    it writes the entries of the array, numbered from 1. *)
Lemma counted_loop_entries (pre refs : list string) :
  map (fun i => ref_entry (i + 1) (array_get (pre ++ refs)%list i))
      (seq (length pre) (length refs)) =
  ref_entries (length pre) refs.
Proof.
  revert pre. induction refs as [|r refs IH]; intros pre; [reflexivity|].
  cbn [length seq map ref_entries]. f_equal.
  - unfold array_get. rewrite nth_middle. reflexivity.
  - specialize (IH (pre ++ [r])%list).
    rewrite <- app_assoc, length_app in IH. cbn [length app] in IH.
    rewrite Nat.add_1_r in IH. exact IH.
Qed.

Lemma renderReferences_blocks (refs : list string) :
  renderReferences refs =
  references_open ++ join (ref_entries 0 refs) ++ references_close.
Proof.
  unfold renderReferences.
  rewrite (fold_left_blocks _
             (fun i => ref_entry (i + 1) (array_get refs i))) by reflexivity.
  pose proof (counted_loop_entries [] refs) as E. cbn [app length] in E.
  rewrite E.
  now rewrite append_assoc.
Qed.

Lemma ref_entries_length (k : nat) (refs : list string) :
  length (ref_entries k refs) = length refs.
Proof.
  revert k. induction refs as [|r refs IH]; intros k; simpl; [reflexivity|].
  now rewrite IH.
Qed.

(** C5. The item at (0-based) index [i] of a references list is written
    as a list entry whose [id] is [ref] followed by [i + 1] in decimal and
    whose anchor points to [#] and shows the reference text itself.  The
    entry stands in the ordered list after the [i] entries of the items
    before it, so its ordinal is [i + 1], and before the entries of the
    items after it. *)
Theorem renderReferences_entry (refs : list string) (i : nat) (r : string) :
  nth_error refs i = Some r ->
  renderReferences refs =
    references_open ++
    join (ref_entries 0 (firstn i refs)) ++
    (lit "<li id='ref" ++ string_of_nat (i + 1) ++ lit "'>^ <a href='#'>" ++
     r ++ "</a></li>") ++
    join (ref_entries (i + 1) (skipn (i + 1) refs)) ++
    references_close
  /\ length (ref_entries 0 (firstn i refs)) = i.
Proof.
  intros H. rewrite renderReferences_blocks.
  destruct (nth_error_split refs i H) as (l1 & l2 & -> & <-).
  rewrite firstn_app, firstn_all, Nat.sub_diag, firstn_O, app_nil_r.
  split; [|apply ref_entries_length].
  rewrite Nat.add_1_r.
  rewrite (skipn_app (S (length l1))), skipn_all2 by lia.
  replace (S (length l1) - length l1) with 1 by lia.
  cbn [skipn app].
  rewrite ref_entries_app. cbn [ref_entries plus].
  rewrite join_app. cbn [join fold_right].
  rewrite Nat.add_1_r. unfold ref_entry.
  repeat rewrite append_assoc. reflexivity.
Qed.

Lemma renderReferences_entry_witness :
  renderReferences ["Knuth 1968"; "Turing 1936"] =
    references_open ++
    join (ref_entries 0 ["Knuth 1968"]) ++
    (lit "<li id='ref" ++ "2" ++ lit "'>^ <a href='#'>" ++ "Turing 1936" ++ "</a></li>") ++
    join (ref_entries 2 []) ++
    references_close.
Proof.
  exact (proj1 (renderReferences_entry ["Knuth 1968"; "Turing 1936"] 1 eq_refl)).
Defined.

(** C8. The section blocks stand in the output in the order of the
    [sections] array, between what steps 1 to 5 write and what steps 7 and
    8 write: the block of an entry comes after the blocks of all entries
    before it and before the blocks of all entries after it. *)
Theorem sections_in_array_order :
  (forall data : ArticleRecord,
      renderArticle_html data =
      article_head data ++
      join (map renderSection (sections data)) ++
      article_tail data)
  /\ (forall t i n tc ib (before : list ArticleSection) (section : ArticleSection)
             (after : list ArticleSection) cats lm,
        let data := mkArticle t i n tc ib (before ++ section :: after)%list cats lm in
        renderArticle_html data =
        article_head data ++
        join (map renderSection before) ++
        renderSection section ++
        join (map renderSection after) ++
        article_tail data).
Proof.
  split.
  - exact renderArticle_html_parts.
  - intros t i n tc ib before section after cats lm data.
    rewrite renderArticle_html_parts. unfold data at 2. cbn [sections].
    rewrite map_app, join_app. cbn [map join fold_right].
    repeat rewrite append_assoc. reflexivity.
Qed.

Lemma link_item_block (html : string) (c : Link) :
  url_given c -> link_item html c = html ++ category_anchor c.
Proof.
  destruct c as [s|t u]; intros H; [reflexivity|].
  destruct u as [|a u]; [now elim H | reflexivity].
Qed.

Lemma links_loop_blocks (cats : list Link) (html : string) :
  Forall url_given cats ->
  fold_left link_item cats html = html ++ join (map category_anchor cats).
Proof.
  intros H. revert html. induction H as [|c cats Hc _ IH]; intros html; simpl.
  - now rewrite append_nil_r.
  - rewrite IH, link_item_block, append_assoc by assumption. reflexivity.
Qed.

(** C6, as stated, fails on a record entry whose url is the empty string:
    the entry is written as a link to [#] whose text is the object printed
    as a string. *)
Lemma categories_empty_url_counterexample :
  ~ categories_as_specified [LinkText "History"; LinkRecord "Portal" EmptyString]
  /\ renderCategories [LinkText "History"; LinkRecord "Portal" EmptyString] =
     categories_open ++
     (lit "<li><a href='#'>" ++ "History" ++ "</a></li>") ++
     (lit "<li><a href='#'>" ++ "[object Object]" ++ "</a></li>") ++
     categories_close.
Proof.
  split.
  - unfold categories_as_specified. intros H. vm_compute in H. discriminate H.
  - vm_compute. reflexivity.
Qed.

(** C6 (amended). In a categories list whose record entries all carry a
    non-empty url, every text entry is written as an anchor with
    [href="#"] and every record entry as an anchor to its url with
    [target="_blank"], one list item per entry, in order. *)
Theorem renderCategories_mixed (cats : list Link) :
  Forall url_given cats ->
  renderCategories cats =
  categories_open ++ join (map category_anchor cats) ++ categories_close.
Proof.
  intros H. unfold renderCategories.
  rewrite links_loop_blocks by assumption.
  now rewrite append_assoc.
Qed.

Lemma renderCategories_mixed_witness :
  renderCategories [LinkText "History"; LinkRecord "Portal" "https://example.org/p"] =
  categories_open ++
  join (map category_anchor
          [LinkText "History"; LinkRecord "Portal" "https://example.org/p"]) ++
  categories_close.
Proof.
  apply renderCategories_mixed.
  repeat constructor; simpl; discriminate.
Defined.

(** C9, as stated, fails on a notice whose [type] is the empty string:
    the field is present, yet the class written is [info]. *)
Lemma notice_empty_type_counterexample :
  ~ notice_as_specified (mkNotice (Some EmptyString) None "Notice" "text")
  /\ renderNotice (mkNotice (Some EmptyString) None "Notice" "text") =
     notice_box "info" default_icon "Notice" "text".
Proof.
  split.
  - unfold notice_as_specified. intros H. vm_compute in H. discriminate H.
  - reflexivity.
Qed.

(** C9 (amended). The notice box has [notice.type] as its class when the
    field is present and not the empty string, and [info] otherwise; it
    has [notice.icon] as its icon when that field is present and not the
    empty string, and the fixed glyph otherwise; [notice.title] is in
    bold and [notice.text] follows it. *)
Theorem renderNotice_defaults (n : Notice) :
  let class :=
    match notice_type n with
    | Some s => if s =? EmptyString then "info" else s
    | None => "info"
    end in
  let icon :=
    match notice_icon n with
    | Some s => if s =? EmptyString then default_icon else s
    | None => default_icon
    end in
  renderNotice n = notice_box class icon (notice_title n) (notice_text n).
Proof.
  destruct n as [[[|a ty]|] [[|b ic]|] ti te]; reflexivity.
Qed.
End Renderer.

(** ** The parts loader *)

Section Loader.
Import PartsLoader.

(** ** Paths and first matches *)

Lemma find_first_nonempty (f : Node -> option Path) (ns : list Node) :
  find_first f ns <> Some [].
Proof.
  induction ns as [|c r IH]; simpl; [discriminate|].
  destruct (f c); [discriminate|].
  destruct (find_first f r) as [[|i p]|]; congruence.
Qed.

Lemma find_first_split (f : Node -> option Path) (ns : list Node) (i : nat) (q : Path) :
  find_first f ns = Some (i :: q) ->
  exists pre x post,
    ns = (pre ++ x :: post)%list /\ length pre = i /\ f x = Some q /\
    Forall (fun y => f y = None) pre.
Proof.
  revert i. induction ns as [|c r IH]; intros i H; simpl in H; [discriminate|].
  destruct (f c) as [p|] eqn:Ec.
  - injection H as <- <-. exists [], c, r. repeat split; auto.
  - destruct (find_first f r) as [[|j p]|] eqn:Er; try discriminate.
    injection H as <- <-.
    destruct (IH j eq_refl) as (pre & x & post & -> & <- & Hx & Hpre).
    exists (c :: pre), x, post. repeat split; auto.
Qed.

Lemma find_first_middle (f : Node -> option Path) (pre : list Node) (x : Node)
  (post : list Node) (q : Path) :
  Forall (fun y => f y = None) pre ->
  f x = Some q ->
  find_first f (pre ++ x :: post)%list = Some (length pre :: q).
Proof.
  intros Hpre Hx. induction Hpre as [|c pre Hc _ IH]; simpl.
  - now rewrite Hx.
  - now rewrite Hc, IH.
Qed.

Lemma splice_nth_middle (A : Type) (g : A -> list A) (pre : list A) (x : A) (post : list A) :
  splice_nth (length pre) g (pre ++ x :: post)%list = (pre ++ g x ++ post)%list.
Proof. induction pre as [|c pre IH]; simpl; [reflexivity | now rewrite IH]. Qed.

Lemma nth_error_middle (A : Type) (pre : list A) (x : A) (post : list A) (k : nat) :
  nth_error (pre ++ x :: post)%list (k + length pre) = nth_error (x :: post) k.
Proof.
  rewrite nth_error_app2 by lia. f_equal. lia.
Qed.

Lemma find_in_here (sel : string) (n : Node) :
  find_in sel n = Some [] -> exists cs, n = Element sel cs.
Proof.
  destruct n as [l cs|h]; simpl; [|discriminate].
  destruct (String.eqb_spec l sel) as [->|_].
  - intros _. now exists cs.
  - intros H. now apply find_first_nonempty in H.
Qed.

Lemma find_in_below (sel : string) (n : Node) (i : nat) (q : Path) :
  find_in sel n = Some (i :: q) ->
  exists l cs, n = Element l cs /\ (l =? sel) = false /\
               find_first (find_in sel) cs = Some (i :: q).
Proof.
  destruct n as [l cs|h]; simpl; [|discriminate].
  destruct (l =? sel) eqn:E; [discriminate|].
  intros H. now exists l, cs.
Qed.

Lemma shift_0 (p : Path) : shift 0 p = p.
Proof.
  induction p as [|i [|j q] IH]; try reflexivity.
  change (i :: shift 0 (j :: q) = i :: j :: q). now rewrite IH.
Qed.

Lemma prev_path_shift (q : Path) :
  forall i, prev_path (shift 1 (i :: q)) = Some (i :: q).
Proof.
  induction q as [|j q IH]; intros i; [reflexivity|].
  specialize (IH j).
  change (shift 1 (i :: j :: q)) with (i :: shift 1 (j :: q)).
  destruct (shift 1 (j :: q)) as [|a b]; [discriminate|].
  change (prev_path (i :: a :: b)) with (option_map (cons i) (prev_path (a :: b))).
  now rewrite IH.
Qed.

Lemma shift_nonempty (k i : nat) (q : Path) : shift k (i :: q) <> [].
Proof. destruct q; discriminate. Qed.

Lemma node_at_below (p : Path) (l : string) (cs : list Node) :
  p <> [] -> node_at p (Element l cs) = forest_at p cs.
Proof. destruct p; [congruence | reflexivity]. Qed.

Lemma forest_at_middle (pre : list Node) (x : Node) (post : list Node) (q : Path) :
  forest_at (length pre :: q) (pre ++ x :: post)%list = node_at q x.
Proof.
  unfold forest_at. pose proof (nth_error_middle pre x post 0) as E.
  cbn [plus] in E. rewrite E. reflexivity.
Qed.

(** ** What a splice does around the target *)

Section Splice.
Variable sel : string.
Variables bef aft : list Node.
Variable g : Node -> Node.
Hypothesis bef_markup : Forall (fun y => find_in sel y = None) bef.
Hypothesis g_label : forall cs, exists cs', g (Element sel cs) = Element sel cs'.

Let f : Node -> list Node := fun n => (bef ++ g n :: aft)%list.

(** The selector still resolves to the target, [length bef] places to
    the right, and the nodes of the block stand side by side from the
    place the target had. *)
Lemma splice_in_places (q : Path) :
  forall (i : nat) (ns : list Node),
    find_first (find_in sel) ns = Some (i :: q) ->
    exists x,
      forest_at (i :: q) ns = Some x /\
      find_in sel x = Some [] /\
      find_first (find_in sel) (splice_in f i q ns) =
        Some (shift (length bef) (i :: q)) /\
      forall k, k < length (f x) ->
                forest_at (shift k (i :: q)) (splice_in f i q ns) = nth_error (f x) k.
Proof.
  induction q as [|j q IH]; intros i ns H;
    destruct (find_first_split _ _ H) as (pre & x & post & -> & <- & Hx & Hpre).
  - exists x. cbn [splice_in shift]. rewrite splice_nth_middle.
    rewrite forest_at_middle. repeat split; auto.
    + destruct (find_in_here _ _ Hx) as (cs & ->).
      destruct (g_label cs) as (cs' & Eg).
      unfold f.
      replace (pre ++ (bef ++ g (Element sel cs) :: aft) ++ post)%list
        with ((pre ++ bef) ++ g (Element sel cs) :: (aft ++ post))%list
        by (rewrite <- !app_assoc; reflexivity).
      rewrite (@find_first_middle (find_in sel) (pre ++ bef)%list _ _ []).
      * rewrite length_app, Nat.add_comm. reflexivity.
      * apply Forall_app. split; assumption.
      * rewrite Eg. simpl. now rewrite String.eqb_refl.
    + intros k Hk. unfold forest_at.
      rewrite nth_error_app2 by lia.
      replace (k + length pre - length pre) with k by lia.
      rewrite nth_error_app1 by assumption.
      destruct (nth_error (f x) k); reflexivity.
  - destruct (find_in_below _ _ Hx) as (l & cs & -> & El & Hcs).
    destruct (IH j cs Hcs) as (y & Hy & Hfy & Hfind & Hat).
    exists y.
    assert (E : splice_in f (length pre) (j :: q) (pre ++ Element l cs :: post)%list =
                (pre ++ Element l (splice_in f j q cs) :: post)%list).
    { cbn [splice_in]. rewrite splice_nth_middle. reflexivity. }
    rewrite E. repeat split; auto.
    + rewrite forest_at_middle. rewrite node_at_below by discriminate. exact Hy.
    + change (shift (length bef) (length pre :: j :: q))
        with (length pre :: shift (length bef) (j :: q)).
      apply find_first_middle; [assumption|].
      simpl find_in. rewrite El. exact Hfind.
    + intros k Hk.
      change (shift k (length pre :: j :: q)) with (length pre :: shift k (j :: q)).
      rewrite forest_at_middle.
      rewrite node_at_below by apply shift_nonempty.
      now apply Hat.
Qed.
End Splice.

(** ** The document after one DOM operation *)

Lemma find_in_cases (sel : string) (doc : Node) (target : Path) :
  find_in sel doc = Some target ->
  (target = [] /\ exists cs, doc = Element sel cs)
  \/ (exists i q l cs, target = i :: q /\ doc = Element l cs /\
                       find_first (find_in sel) cs = Some (i :: q)).
Proof.
  destruct target as [|i q]; intros H.
  - left. split; [reflexivity | now apply find_in_here].
  - right. destruct (find_in_below _ _ H) as (l & cs & -> & _ & Hcs).
    now exists i, q, l, cs.
Qed.

Lemma find_in_element (sel : string) (doc : Node) (target : Path) :
  find_in sel doc = Some target ->
  exists cs, node_at target doc = Some (Element sel cs).
Proof.
  intros H. destruct (find_in_cases _ _ H) as [(-> & cs & ->)|(i & q & l & cs & -> & -> & Hcs)].
  - now exists cs.
  - destruct (@splice_in_places sel [] [] (fun n => n) (Forall_nil _)
                (fun cs => ex_intro _ cs eq_refl) q i cs Hcs)
      as (x & Hx & Hfx & _).
    destruct (find_in_here _ _ Hfx) as (cs' & ->).
    exists cs'. exact Hx.
Qed.

Lemma map_target_children (sel : string) (k : list Node -> list Node)
  (doc : Node) (target : Path) (cs : list Node) :
  find_in sel doc = Some target ->
  node_at target doc = Some (Element sel cs) ->
  find_in sel (map_target (with_children k) target doc) = Some target
  /\ node_at target (map_target (with_children k) target doc) = Some (Element sel (k cs)).
Proof.
  intros H Hat.
  destruct (find_in_cases _ _ H) as [(-> & cs0 & ->)|(i & q & l & cs0 & -> & -> & Hcs)].
  - simpl in Hat. injection Hat as <-. simpl. now rewrite String.eqb_refl.
  - destruct (find_in_below _ _ H) as (l' & cs' & E & El & _).
    injection E as <- <-.
    destruct (@splice_in_places sel [] [] (with_children k) (Forall_nil _)
                (fun cs => ex_intro _ (k cs) eq_refl) q i cs0 Hcs)
      as (x & Hx & Hfx & Hfind & Hplaces).
    change (node_at (i :: q) (Element l cs0)) with (forest_at (i :: q) cs0) in Hat.
    rewrite Hx in Hat. injection Hat as ->.
    cbn [map_target app]. split.
    + simpl find_in. rewrite El. cbn [length] in Hfind.
      rewrite shift_0 in Hfind. exact Hfind.
    + specialize (Hplaces 0 (Nat.lt_0_succ _)). rewrite shift_0 in Hplaces.
      exact Hplaces.
Qed.

Lemma splice_target_before (sel h : string) (doc : Node) (target : Path) (cs : list Node) :
  find_in sel doc = Some target ->
  target <> [] ->
  node_at target doc = Some (Element sel cs) ->
  exists d,
    splice_target (fun n => [Markup h; n]) target doc = Some d
    /\ find_in sel d = Some (shift 1 target)
    /\ node_at target d = Some (Markup h)
    /\ node_at (shift 1 target) d = Some (Element sel cs).
Proof.
  intros H Hne Hat.
  destruct (find_in_cases _ _ H) as [(-> & _)|(i & q & l & cs0 & -> & -> & Hcs)];
    [congruence|].
  destruct (find_in_below _ _ H) as (l' & cs' & E & El & _).
  injection E as <- <-.
  destruct (@splice_in_places sel [Markup h] [] (fun n => n)
              (Forall_cons (Markup h) (eq_refl : find_in sel (Markup h) = None) (Forall_nil _))
              (fun cs => ex_intro _ cs eq_refl) q i cs0 Hcs)
    as (x & Hx & Hfx & Hfind & Hplaces).
  change (node_at (i :: q) (Element l cs0)) with (forest_at (i :: q) cs0) in Hat.
  rewrite Hx in Hat. injection Hat as ->.
  eexists. split; [reflexivity|]. repeat split.
  - simpl find_in. rewrite El. exact Hfind.
  - pose proof (Hplaces 0) as P0. rewrite shift_0 in P0.
    apply P0. simpl. lia.
  - rewrite node_at_below by apply shift_nonempty.
    apply (Hplaces 1). simpl. lia.
Qed.

Lemma splice_target_after (sel h : string) (doc : Node) (target : Path) (cs : list Node) :
  find_in sel doc = Some target ->
  target <> [] ->
  node_at target doc = Some (Element sel cs) ->
  exists d,
    splice_target (fun n => [n; Markup h]) target doc = Some d
    /\ find_in sel d = Some target
    /\ node_at target d = Some (Element sel cs)
    /\ node_at (shift 1 target) d = Some (Markup h).
Proof.
  intros H Hne Hat.
  destruct (find_in_cases _ _ H) as [(-> & _)|(i & q & l & cs0 & -> & -> & Hcs)];
    [congruence|].
  destruct (find_in_below _ _ H) as (l' & cs' & E & El & _).
  injection E as <- <-.
  destruct (@splice_in_places sel [] [Markup h] (fun n => n) (Forall_nil _)
              (fun cs => ex_intro _ cs eq_refl) q i cs0 Hcs)
    as (x & Hx & Hfx & Hfind & Hplaces).
  change (node_at (i :: q) (Element l cs0)) with (forest_at (i :: q) cs0) in Hat.
  rewrite Hx in Hat. injection Hat as ->.
  eexists. split; [reflexivity|]. repeat split.
  - simpl find_in. rewrite El. cbn [length] in Hfind.
    rewrite shift_0 in Hfind. exact Hfind.
  - pose proof (Hplaces 0) as P0. rewrite shift_0 in P0.
    apply P0. simpl. lia.
  - rewrite node_at_below by apply shift_nonempty.
    apply (Hplaces 1). simpl. lia.
Qed.


(** ** One call of [loadPart] *)


Lemma loadPart_found (partPath sel html pos : string) (st : Page) (target : Path) :
  find_in sel (document st) = Some target ->
  loadPart (Response true html) partPath sel (Some pos) st =
  match place pos html target (document st) with
  | Some d => (Fulfilled, mkPage d (console st))
  | None =>
      (Fulfilled,
       mkPage (document st)
              (console st ++ [console_error_entry load_error NoModificationAllowedError]))
  end.
Proof.
  intros H.
  unfold loadPart, async, try_catch, loadPart_try, bind, await_fetch, ret, querySelector.
  cbn [fst snd negb]. rewrite H. unfold place.
  destruct (pos =? "append"); [reflexivity|].
  destruct (pos =? "prepend"); [reflexivity|].
  destruct (pos =? "before").
  { unfold insertAdjacentHTML.
    destruct (splice_target _ target (document st)); reflexivity. }
  destruct (pos =? "after").
  { unfold insertAdjacentHTML.
    destruct (splice_target _ target (document st)); reflexivity. }
  reflexivity.
Qed.

Lemma loadPart_missing (partPath sel html : string) (pos : option string) (st : Page) :
  find_in sel (document st) = None ->
  document (snd (loadPart (Response true html) partPath sel pos st)) = document st.
Proof.
  intros H.
  unfold loadPart, async, try_catch, loadPart_try, bind, await_fetch, ret, querySelector.
  cbn [fst snd negb]. rewrite H.
  destruct (malformed_selector sel); reflexivity.
Qed.

Lemma loadPart_failed (r : FetchOutcome) (partPath sel : string) (pos : option string)
  (st : Page) :
  fetch_failed r = true ->
  document (snd (loadPart r partPath sel pos st)) = document st.
Proof.
  destruct r as [e|[|] text]; intros H; try discriminate; reflexivity.
Qed.

Lemma loadPart_fulfilled (r : FetchOutcome) (partPath sel : string) (pos : option string)
  (st : Page) :
  fst (loadPart r partPath sel pos st) = Fulfilled.
Proof.
  unfold loadPart, async, try_catch, loadPart_try, bind, await_fetch, ret, querySelector.
  destruct r as [e|[|] text]; cbn [fst snd negb throw]; try reflexivity.
  destruct (find_in sel (document st)) as [target|];
    [|destruct (malformed_selector sel); reflexivity].
  repeat match goal with
         | |- context [if ?b then _ else _] => destruct b
         end;
    unfold insertAdjacentHTML;
    try destruct (splice_target _ target (document st)); reflexivity.
Qed.

Lemma lastChild_appended (target : Path) (doc : Node) (l : string) (cs : list Node) (x : Node) :
  node_at target doc = Some (Element l (cs ++ [x])%list) ->
  lastChild target doc = Some x.
Proof.
  intros H. unfold lastChild, childNodes. rewrite H.
  destruct cs as [|c r]; [reflexivity|].
  cbn [app]. now rewrite last_last.
Qed.

Lemma document_after_place (pos partPath sel html : string) (st : Page)
  (target : Path) (d : Node) :
  find_in sel (document st) = Some target ->
  place pos html target (document st) = Some d ->
  document_after (Some pos) partPath sel html st = d.
Proof.
  intros H Hp. unfold document_after.
  rewrite (@loadPart_found partPath sel html pos st target H), Hp. reflexivity.
Qed.

(** C3, as stated, fails on a target that already has a child: after
    [append] the first child is still the old one and the fetched content
    is the last child. *)
Lemma positions_append_counterexample :
  ~ positions_as_specified sample_doc "#footer-placeholder" "F"
  /\ (let after :=
        document_after (Some "append") "part.html" "#footer-placeholder" "F" sample_page in
      firstChild [0; 2] after = Some (Markup "old footer")
      /\ lastChild [0; 2] after = Some (Markup "F")).
Proof.
  split.
  - intros H. specialize (H [0; 2] eq_refl).
    destruct H as (_ & H & _). vm_compute in H. discriminate H.
  - split; reflexivity.
Qed.

(** C3 (amended). For a spec whose fetch succeeded and whose target
    exists, the five position values act as follows.  [replace]: the
    fetched content is all the target holds.  [append]: it is added after
    the children the target had, so it is the last child.  [prepend]: it
    is put in front of them, so it is the first child.  [before] and
    [after], for a target that is not the root element: it is the
    target's previous, respectively next, sibling, and the target itself
    is as it was.  In each case the selector still resolves to the target
    element. *)
Theorem positions_semantics (partPath sel html : string) (st : Page) (target : Path)
  (cs : list Node) :
  find_in sel (document st) = Some target ->
  node_at target (document st) = Some (Element sel cs) ->
  let after pos := document_after (Some pos) partPath sel html st in
  (find_in sel (after "replace") = Some target
   /\ childNodes target (after "replace") = Some [Markup html])
  /\ (find_in sel (after "append") = Some target
      /\ childNodes target (after "append") = Some (cs ++ [Markup html])%list
      /\ lastChild target (after "append") = Some (Markup html))
  /\ (find_in sel (after "prepend") = Some target
      /\ childNodes target (after "prepend") = Some (Markup html :: cs)
      /\ firstChild target (after "prepend") = Some (Markup html))
  /\ (target <> [] ->
      find_in sel (after "before") = Some (shift 1 target)
      /\ previousSibling (shift 1 target) (after "before") = Some (Markup html)
      /\ node_at (shift 1 target) (after "before") = Some (Element sel cs))
  /\ (target <> [] ->
      find_in sel (after "after") = Some target
      /\ nextSibling target (after "after") = Some (Markup html)
      /\ node_at target (after "after") = Some (Element sel cs)).
Proof.
  intros H Hat after. unfold after. clear after.
  repeat apply conj.
  - rewrite (@document_after_place "replace" partPath sel html st target _ H eq_refl).
    apply (@map_target_children sel _ _ target cs H Hat).
  - rewrite (@document_after_place "replace" partPath sel html st target _ H eq_refl).
    unfold childNodes. now rewrite (proj2 (@map_target_children sel _ _ target cs H Hat)).
  - rewrite (@document_after_place "append" partPath sel html st target _ H eq_refl).
    apply (@map_target_children sel _ _ target cs H Hat).
  - rewrite (@document_after_place "append" partPath sel html st target _ H eq_refl).
    unfold childNodes. now rewrite (proj2 (@map_target_children sel _ _ target cs H Hat)).
  - rewrite (@document_after_place "append" partPath sel html st target _ H eq_refl).
    eapply lastChild_appended.
    apply (proj2 (@map_target_children sel (fun cs => cs ++ [Markup html])%list _ target cs H Hat)).
  - rewrite (@document_after_place "prepend" partPath sel html st target _ H eq_refl).
    apply (@map_target_children sel _ _ target cs H Hat).
  - rewrite (@document_after_place "prepend" partPath sel html st target _ H eq_refl).
    unfold childNodes. now rewrite (proj2 (@map_target_children sel _ _ target cs H Hat)).
  - rewrite (@document_after_place "prepend" partPath sel html st target _ H eq_refl).
    unfold firstChild, childNodes. now rewrite (proj2 (@map_target_children sel _ _ target cs H Hat)).
  - intros Hne.
    destruct (@splice_target_before sel html _ _ _ H Hne Hat) as (d & Hd & Hf & Hm & Ht).
    rewrite (@document_after_place "before" partPath sel html st target _ H Hd).
    repeat split; auto.
    unfold previousSibling. destruct target as [|i q]; [congruence|].
    now rewrite prev_path_shift.
  - intros Hne.
    destruct (@splice_target_after sel html _ _ _ H Hne Hat) as (d & Hd & Hf & Ht & Hm).
    rewrite (@document_after_place "after" partPath sel html st target _ H Hd).
    repeat split; auto.
    unfold nextSibling. destruct target as [|i q]; [congruence | exact Hm].
Qed.

Lemma positions_semantics_witness :
  lastChild [0; 2]
    (document_after (Some "append") "parts/footer.html" "#footer-placeholder" "F"
                    sample_page) = Some (Markup "F")
  /\ firstChild [0; 2]
       (document_after (Some "prepend") "parts/footer.html" "#footer-placeholder" "F"
                       sample_page) = Some (Markup "F").
Proof.
  pose proof (@positions_semantics "parts/footer.html" "#footer-placeholder" "F"
                sample_page [0; 2] [Markup "old footer"] eq_refl eq_refl) as H.
  cbv zeta in H.
  destruct H as (_ & (_ & _ & Happend) & (_ & _ & Hprepend) & _).
  split; [exact Happend | exact Hprepend].
Defined.

(** C7, as stated, fails when the target is the root element: the DOM
    refuses the insertion, [loadPart] catches and logs the error, and the
    document is as it was. *)
Lemma siblings_root_counterexample :
  ~ siblings_as_specified sample_doc "html" "X"
  /\ PartsLoader.loadPart (Response true "X") "part.html" "html" (Some "before") sample_page =
     (Fulfilled,
      mkPage sample_doc [console_error_entry load_error NoModificationAllowedError]).
Proof.
  split.
  - intros H. specialize (H [] eq_refl).
    destruct H as ((t & Hf & Hp & _) & _).
    vm_compute in Hf. injection Hf as <-. discriminate Hp.
  - reflexivity.
Qed.

(** C7 (amended). For a spec with position [before] or [after] whose
    fetch succeeded and whose target exists and is not the root element,
    the fetched text is the node immediately before, respectively after,
    the target among its siblings, and the target holds the same children
    as before the call. *)
Theorem sibling_positions (partPath sel html : string) (st : Page) (target : Path)
  (cs : list Node) :
  find_in sel (document st) = Some target ->
  target <> [] ->
  node_at target (document st) = Some (Element sel cs) ->
  let after pos := document_after (Some pos) partPath sel html st in
  (find_in sel (after "before") = Some (shift 1 target)
   /\ previousSibling (shift 1 target) (after "before") = Some (Markup html)
   /\ childNodes (shift 1 target) (after "before") = Some cs)
  /\ (find_in sel (after "after") = Some target
      /\ nextSibling target (after "after") = Some (Markup html)
      /\ childNodes target (after "after") = Some cs).
Proof.
  intros H Hne Hat after. unfold after. clear after. split.
  - destruct (@splice_target_before sel html _ _ _ H Hne Hat) as (d & Hd & Hf & Hm & Ht).
    rewrite (@document_after_place "before" partPath sel html st target _ H Hd).
    repeat split; auto.
    + unfold previousSibling. destruct target as [|i q]; [congruence|].
      now rewrite prev_path_shift.
    + unfold childNodes. now rewrite Ht.
  - destruct (@splice_target_after sel html _ _ _ H Hne Hat) as (d & Hd & Hf & Ht & Hm).
    rewrite (@document_after_place "after" partPath sel html st target _ H Hd).
    repeat split; auto.
    + unfold nextSibling. destruct target as [|i q]; [congruence | exact Hm].
    + unfold childNodes. now rewrite Ht.
Qed.

Lemma sibling_positions_witness :
  previousSibling [0; 3]
    (document_after (Some "before") "parts/footer.html" "#footer-placeholder" "F"
                    sample_page) = Some (Markup "F")
  /\ nextSibling [0; 2]
       (document_after (Some "after") "parts/footer.html" "#footer-placeholder" "F"
                       sample_page) = Some (Markup "F").
Proof.
  assert (Hne : [0; 2] <> @nil nat) by discriminate.
  pose proof (@sibling_positions "parts/footer.html" "#footer-placeholder" "F"
                sample_page [0; 2] [Markup "old footer"] eq_refl Hne eq_refl) as H.
  cbv zeta in H.
  destruct H as ((_ & Hbefore & _) & (_ & Hafter & _)).
  split; [exact Hbefore | exact Hafter].
Defined.

Lemma loadPart_default (r : FetchOutcome) (partPath sel v : string) (st : Page) :
  ~ In v ["append"; "prepend"; "before"; "after"] ->
  loadPart r partPath sel (Some v) st = loadPart r partPath sel (Some "replace") st.
Proof.
  intros Hv.
  assert (E1 : (v =? "append") = false) by (apply String.eqb_neq; intros ->; apply Hv; simpl; auto).
  assert (E2 : (v =? "prepend") = false) by (apply String.eqb_neq; intros ->; apply Hv; simpl; auto).
  assert (E3 : (v =? "before") = false) by (apply String.eqb_neq; intros ->; apply Hv; simpl; auto).
  assert (E4 : (v =? "after") = false) by (apply String.eqb_neq; intros ->; apply Hv; simpl; auto).
  unfold loadPart, async, try_catch, loadPart_try, bind, await_fetch, ret, querySelector.
  destruct r as [e|[|] text]; cbn [fst snd negb throw]; try reflexivity.
  destruct (find_in sel (document st)) as [target|];
    [|destruct (malformed_selector sel); reflexivity].
  rewrite E1, E2, E3, E4. reflexivity.
Qed.

(** C10. A [position] that is none of the five recognized values (or
    that is absent) is treated as [replace]: the call [loadParts] makes for
    the entry, and [loadPart] itself on the value, do what they do for
    ["replace"]; when the fetch succeeded and the target exists, the
    fetched content is all the target holds afterwards. *)
Theorem unrecognized_position_replaces (partPath sel : string) (pos : option string)
  (r : FetchOutcome) (st : Page) :
  (forall v, pos = Some v -> ~ recognized v) ->
  call (mkPart partPath sel pos, r) st = call (mkPart partPath sel (Some "replace"), r) st
  /\ (forall v, pos = Some v ->
        loadPart r partPath sel (Some v) st = loadPart r partPath sel (Some "replace") st)
  /\ (forall html target,
        r = Response true html ->
        find_in sel (document st) = Some target ->
        let d := document (snd (call (mkPart partPath sel pos, r) st)) in
        find_in sel d = Some target /\ childNodes target d = Some [Markup html]).
Proof.
  intros Hpos.
  assert (Hfour : forall v, pos = Some v -> ~ In v ["append"; "prepend"; "before"; "after"]).
  { intros v Ev Hin. apply (Hpos v Ev). unfold recognized. simpl in *. tauto. }
  assert (Hcall : call (mkPart partPath sel pos, r) st =
                  call (mkPart partPath sel (Some "replace"), r) st).
  { unfold call. cbn [fst snd path selector position].
    destruct pos as [[|c v]|]; try reflexivity.
    cbn [or_else]. now apply loadPart_default, Hfour. }
  split; [exact Hcall|]. split.
  - intros v Ev. now apply loadPart_default, Hfour.
  - intros html target -> H d. unfold d. clear d. rewrite Hcall.
    unfold call. cbn [fst snd path selector position or_else].
    destruct (find_in_element _ _ H) as (cs & Hat).
    change (document (snd (loadPart (Response true html) partPath sel (Some "replace") st)))
      with (document_after (Some "replace") partPath sel html st).
    rewrite (@document_after_place "replace" partPath sel html st target _ H eq_refl).
    destruct (@map_target_children sel (fun _ => [Markup html]) _ target cs H Hat) as (Hf & Hn).
    split; [exact Hf|]. unfold childNodes. now rewrite Hn.
Qed.

Lemma unrecognized_position_replaces_witness :
  call (mkPart "parts/footer.html" "#footer-placeholder" (Some "middle"),
        Response true "F") sample_page =
  call (mkPart "parts/footer.html" "#footer-placeholder" (Some "replace"),
        Response true "F") sample_page.
Proof.
  assert (Hpos : forall v, Some "middle" = Some v -> ~ recognized v).
  { intros v E. injection E as <-. unfold recognized. simpl.
    intuition discriminate. }
  exact (proj1 (@unrecognized_position_replaces "parts/footer.html"
                  "#footer-placeholder" (Some "middle") (Response true "F")
                  sample_page Hpos)).
Defined.


(** ** All calls of [loadParts] *)

Lemma splice_in_unfold (f : Node -> list Node) (i : nat) (q : Path) (ns : list Node) :
  splice_in f i q ns =
  splice_nth i
    (fun n =>
       match q with
       | [] => f n
       | j :: q' =>
           match n with
           | Element l cs => [Element l (splice_in f j q' cs)]
           | Markup h => [Markup h]
           end
       end) ns.
Proof. destruct q; reflexivity. Qed.


Lemma call_failed (job : Part * FetchOutcome) (st : Page) :
  fetch_failed (snd job) = true ->
  document (snd (call job st)) = document st.
Proof. intros H. unfold call. now apply loadPart_failed. Qed.

Lemma run_cons (job : Part * FetchOutcome) (rest : list (Part * FetchOutcome)) (st : Page) :
  snd (run (job :: rest) st) = snd (run rest (snd (call job st)))
  /\ fst (run (job :: rest) st) =
     fst (call job st) :: fst (run rest (snd (call job st))).
Proof.
  cbn [run]. destruct (call job st) as [p st1]. cbn [fst snd].
  destruct (run rest st1) as [ps st2]. split; reflexivity.
Qed.

Lemma run_fulfilled (order : list (Part * FetchOutcome)) (st : Page) :
  Promise_all (fst (run order st)) = Fulfilled.
Proof.
  revert st. induction order as [|job rest IH]; intros st; [reflexivity|].
  rewrite (proj2 (run_cons job rest st)).
  unfold call at 1. rewrite loadPart_fulfilled. cbn [Promise_all]. apply IH.
Qed.

Lemma loadParts_run (order : list (Part * FetchOutcome)) (st : Page) :
  loadParts order st = (Promise_all (fst (run order st)), snd (run order st)).
Proof. unfold loadParts. now destruct (run order st). Qed.


End Loader.

(** ** Further properties of the renderer *)

Section RendererMore.
Import WikiArticleRenderer.

Lemma toc_entry_drop_empty (item : TocItem) :
  toc_entry (drop_empty_children item) = toc_entry item.
Proof. destruct item as [i n t [[|c cs]|]]; reflexivity. Qed.

(** X1. An item of the table of contents whose [children] array is
    empty is written like an item without [children]: no empty nested
    list appears. *)
Theorem renderToc_empty_children (tocItems : list TocItem) :
  renderToc (map drop_empty_children tocItems) = renderToc tocItems.
Proof.
  rewrite !renderToc_blocks, map_map. do 3 f_equal.
  apply map_ext. intros item. apply toc_entry_drop_empty.
Qed.



Lemma table_rows_loop (rows : list (list string)) (html : string) :
  fold_left (fun html row =>
               let html := html ++ "<tr>" in
               let html :=
                 fold_left (fun html cell => html ++ "<td>" ++ cell ++ "</td>")
                           row html in
               html ++ "</tr>")
            rows html =
  html ++ join (map table_row_block rows).
Proof.
  apply fold_left_blocks. intros h row. cbv zeta. unfold table_row_block.
  rewrite (fold_left_blocks _ (fun cell => "<td>" ++ cell ++ "</td>")) by reflexivity.
  now rewrite !append_assoc.
Qed.

(** X3. A table is its caption, when the caption is a non-empty string,
    then the header row, written even when there are no headers, then one
    row per entry of [rows] in order; a row has one cell per entry of
    its own, whatever the number of headers. *)
Theorem renderTable_rows (table : Table) :
  renderTable table =
  lit "<table class='wikitable'>" ++
  (if truthy (table_caption table)
   then "<caption>" ++ or_else (table_caption table) EmptyString ++ "</caption>"
   else EmptyString) ++
  "<tr>" ++ join (map (fun header => "<th>" ++ header ++ "</th>") (table_headers table)) ++
  "</tr>" ++
  join (map table_row_block (table_rows table)) ++
  "</table>".
Proof.
  unfold renderTable. cbv zeta. rewrite table_rows_loop.
  rewrite (fold_left_blocks _ (fun header => "<th>" ++ header ++ "</th>")) by reflexivity.
  destruct (truthy (table_caption table)); repeat rewrite append_assoc; reflexivity.
Qed.

(** X4. The columns block holds one titled list per column, in array
    order, each with one item per entry of the column's [items]. *)
Theorem renderColumns_blocks (columns : list Column) :
  renderColumns columns =
  lit "<div class='columns'>" ++ join (map column_block columns) ++ "</div>".
Proof.
  unfold renderColumns. cbv zeta.
  rewrite (fold_left_blocks _ column_block).
  - now rewrite append_assoc.
  - intros h col. unfold column_block.
    rewrite (fold_left_blocks _ (fun item => "<li>" ++ item ++ "</li>")) by reflexivity.
    now rewrite !append_assoc.
Qed.

(** X5. [renderRelatedLinks] and [renderCategories] write the same list
    items for the same entries, in array order, and differ only in what
    wraps the list.  An item links to [#] for a text entry and for a
    record whose url is the empty string (whose text is then the record
    printed as a string), and to the url, in a new context, otherwise. *)
Theorem link_lists_same_items (links : list Link) :
  renderRelatedLinks links =
    lit "<div class='related-links'><ul>" ++ join (map link_block links) ++ "</ul></div>"
  /\ renderCategories links =
       categories_open ++ join (map link_block links) ++ categories_close.
Proof.
  unfold renderRelatedLinks, renderCategories. cbv zeta.
  rewrite !(fold_left_blocks _ link_block) by apply link_item_any.
  split; now rewrite append_assoc.
Qed.

(** X6. [renderExternalLinks] writes one item per entry, in array order,
    each an anchor of class [external] to the entry's url; unlike the
    other link lists it has no fallback to [#]: the url is written as it
    is, also when it is empty. *)
Theorem renderExternalLinks_blocks (links : list ExternalLink) :
  renderExternalLinks links =
  "<ul>" ++ join (map external_link_block links) ++ "</ul>".
Proof.
  unfold renderExternalLinks. cbv zeta.
  rewrite (fold_left_blocks _ external_link_block) by reflexivity.
  now rewrite append_assoc.
Qed.
End RendererMore.

Section RendererEdges.
Import WikiArticleRenderer.

Lemma string_length_append (a b : string) :
  String.length (a ++ b) = String.length a + String.length b.
Proof. induction a as [|c a IH]; simpl; [reflexivity | now rewrite IH]. Qed.

Lemma inserted_block_differs (pre block post : string) :
  block <> EmptyString -> pre ++ block ++ post <> pre ++ post.
Proof.
  intros Hb E. apply (f_equal String.length) in E.
  rewrite !string_length_append in E.
  destruct block as [|c block]; [congruence|]. simpl in E. lia.
Qed.

(** The part of a section block before, and after, the place of one of
    its optional list fields. *)
Ltac section_split s :=
  rewrite !renderSection_heading;
  unfold section_body, section_heading, opt_block;
  cbn [section_id section_title section_content section_subsections section_table
       section_columns section_relatedLinks section_references section_externalLinks
       with_columns with_relatedLinks with_references with_externalLinks];
  destruct (truthy (section_content s));
  destruct (section_subsections s);
  destruct (section_table s);
  destruct (section_columns s);
  destruct (section_relatedLinks s);
  destruct (section_references s);
  destruct (section_externalLinks s);
  repeat rewrite append_assoc; reflexivity.

(** X7. In a section, a [content] that is the empty string and a
    [subsections] array that is empty are rendered like absent ones.
    The other list fields are not: [columns], [relatedLinks],
    [references] or [externalLinks] present but empty put their empty
    container into the section block, at the field's place, so the block
    differs from that of the section without the field. *)
Theorem empty_fields_in_section (s : ArticleSection) :
  renderSection (with_content (Some EmptyString) s) = renderSection (with_content None s)
  /\ renderSection (with_subsections (Some []) s) =
     renderSection (with_subsections None s)
  /\ (exists pre post,
        renderSection (with_columns None s) = pre ++ post /\
        renderSection (with_columns (Some []) s) =
          pre ++ lit "<div class='columns'></div>" ++ post)
  /\ (exists pre post,
        renderSection (with_relatedLinks None s) = pre ++ post /\
        renderSection (with_relatedLinks (Some []) s) =
          pre ++ lit "<div class='related-links'><ul></ul></div>" ++ post)
  /\ (exists pre post,
        renderSection (with_references None s) = pre ++ post /\
        renderSection (with_references (Some []) s) =
          pre ++ lit "<div class='references'><ol></ol></div>" ++ post)
  /\ (exists pre post,
        renderSection (with_externalLinks None s) = pre ++ post /\
        renderSection (with_externalLinks (Some []) s) =
          pre ++ "<ul></ul>" ++ post)
  /\ renderSection (with_columns (Some []) s) <> renderSection (with_columns None s)
  /\ renderSection (with_relatedLinks (Some []) s) <>
     renderSection (with_relatedLinks None s)
  /\ renderSection (with_references (Some []) s) <>
     renderSection (with_references None s)
  /\ renderSection (with_externalLinks (Some []) s) <>
     renderSection (with_externalLinks None s).
Proof.
  assert (Hc : exists pre post,
             renderSection (with_columns None s) = pre ++ post /\
             renderSection (with_columns (Some []) s) =
               pre ++ lit "<div class='columns'></div>" ++ post).
  { exists (section_heading s ++
            (if truthy (section_content s)
             then or_else (section_content s) EmptyString else EmptyString) ++
            opt_block (fun subs => join (map subsection_block subs))
                      (section_subsections s) ++
            opt_block renderTable (section_table s)),
           (opt_block renderRelatedLinks (section_relatedLinks s) ++
            opt_block renderReferences (section_references s) ++
            opt_block renderExternalLinks (section_externalLinks s) ++ "</section>").
    split; section_split s. }
  assert (Hl : exists pre post,
             renderSection (with_relatedLinks None s) = pre ++ post /\
             renderSection (with_relatedLinks (Some []) s) =
               pre ++ lit "<div class='related-links'><ul></ul></div>" ++ post).
  { exists (section_heading s ++
            (if truthy (section_content s)
             then or_else (section_content s) EmptyString else EmptyString) ++
            opt_block (fun subs => join (map subsection_block subs))
                      (section_subsections s) ++
            opt_block renderTable (section_table s) ++
            opt_block renderColumns (section_columns s)),
           (opt_block renderReferences (section_references s) ++
            opt_block renderExternalLinks (section_externalLinks s) ++ "</section>").
    split; section_split s. }
  assert (Hr : exists pre post,
             renderSection (with_references None s) = pre ++ post /\
             renderSection (with_references (Some []) s) =
               pre ++ lit "<div class='references'><ol></ol></div>" ++ post).
  { exists (section_heading s ++
            (if truthy (section_content s)
             then or_else (section_content s) EmptyString else EmptyString) ++
            opt_block (fun subs => join (map subsection_block subs))
                      (section_subsections s) ++
            opt_block renderTable (section_table s) ++
            opt_block renderColumns (section_columns s) ++
            opt_block renderRelatedLinks (section_relatedLinks s)),
           (opt_block renderExternalLinks (section_externalLinks s) ++ "</section>").
    split; section_split s. }
  assert (He : exists pre post,
             renderSection (with_externalLinks None s) = pre ++ post /\
             renderSection (with_externalLinks (Some []) s) =
               pre ++ "<ul></ul>" ++ post).
  { exists (section_heading s ++
            (if truthy (section_content s)
             then or_else (section_content s) EmptyString else EmptyString) ++
            opt_block (fun subs => join (map subsection_block subs))
                      (section_subsections s) ++
            opt_block renderTable (section_table s) ++
            opt_block renderColumns (section_columns s) ++
            opt_block renderRelatedLinks (section_relatedLinks s) ++
            opt_block renderReferences (section_references s)),
           "</section>".
    split; section_split s. }
  split; [reflexivity|]. split; [reflexivity|].
  repeat split; try assumption.
  - destruct Hc as (pre & post & -> & ->). apply inserted_block_differs. discriminate.
  - destruct Hl as (pre & post & -> & ->). apply inserted_block_differs. discriminate.
  - destruct Hr as (pre & post & -> & ->). apply inserted_block_differs. discriminate.
  - destruct He as (pre & post & -> & ->). apply inserted_block_differs. discriminate.
Qed.

Lemma string_of_nat_inj (n m : nat) : string_of_nat n = string_of_nat m -> n = m.
Proof.
  unfold string_of_nat. intros H.
  apply (f_equal NilEmpty.uint_of_string) in H. rewrite !NilEmpty.usu in H.
  injection H as H. apply (f_equal Nat.of_uint) in H.
  now rewrite !DecimalNat.Unsigned.of_to in H.
Qed.

(** X8. The [id] written for the entry at index [i] of a references list
    is [ref] followed by [i + 1]; within one list no two entries get the
    same [id]. *)
Theorem reference_ids_distinct :
  (forall i r,
      ref_entry (i + 1) r =
      lit "<li id='" ++ ref_id i ++ lit "'>^ <a href='#'>" ++ r ++ "</a></li>")
  /\ (forall refs : list string,
        renderReferences refs =
        references_open ++
        join (map (fun i => ref_entry (i + 1) (array_get refs i))
                  (seq 0 (length refs))) ++
        references_close)
  /\ (forall i j, ref_id i = ref_id j -> i = j).
Proof.
  repeat split.
  - intros refs. unfold renderReferences. cbv zeta.
    rewrite (fold_left_blocks _ (fun i => ref_entry (i + 1) (array_get refs i)))
      by reflexivity.
    now rewrite append_assoc.
  - intros i j H. unfold ref_id in H. injection H as H.
    apply string_of_nat_inj in H. lia.
Qed.

Lemma reference_ids_distinct_witness : ref_id 2 = "ref3" /\ 2 = 2.
Proof.
  split; [reflexivity | exact (proj2 (proj2 reference_ids_distinct) 2 2 eq_refl)].
Defined.
End RendererEdges.

(** ** Loading an article, the toc toggle *)

Section ArticlePage.

(** X9. When the article container exists, [loadArticle] is fulfilled
    whatever the fetch brings.  An article is rendered into the
    container, the title becomes the article's title followed by the site
    name, and nothing is logged.  Any failure (the fetch rejects, the
    response is not [ok], its body is not JSON) leaves the title as it
    was, logs the error once and puts the warning box with the error's
    message into the container; for a response that is not [ok] the
    message ends with the status.  In both cases the container keeps
    nothing of what it held before. *)
Theorem loadArticle_outcomes (c : Node) (t : string) (log : list LogEntry) :
  (forall articleData,
      loadArticle (Body articleData) (mkView (Some c) t log) =
      (Fulfilled,
       mkView (Some (renderArticle articleData c))
              (title articleData ++ " - ワィキペディア") log))
  /\ (forall r error,
        load_failure r = Some error ->
        loadArticle r (mkView (Some c) t log) =
        (Fulfilled,
         mkView (Some (with_children
                         (fun _ => [Markup (showError_html (error_message error))]) c))
                t (log ++ [console_error_entry "エラー:" error])%list))
  /\ (forall status,
        load_failure (HttpStatus status) =
        Some (mkError "Error"
                ("記事の読み込みに失敗しました: " ++ string_of_nat status))).
Proof.
  repeat split.
  intros r error H. destruct r; cbn in H; try discriminate;
    injection H as <-; reflexivity.
Qed.

Lemma loadArticle_outcomes_witness :
  loadArticle (HttpStatus 404) (mkView (Some (Element "#article-content" [Markup "old"]))
                                       "old title" []) =
  (Fulfilled,
   mkView (Some (Element "#article-content"
                   [Markup (showError_html "記事の読み込みに失敗しました: 404")]))
          "old title"
          [console_error_entry "エラー:"
             (mkError "Error" "記事の読み込みに失敗しました: 404")]).
Proof.
  exact (proj1 (proj2 (loadArticle_outcomes (Element "#article-content" [Markup "old"])
                         "old title" []))
               (HttpStatus 404) _ eq_refl).
Defined.

Lemma container_overwritten (k1 k2 : list Node) (c : Node) :
  with_children (fun _ => k2) (with_children (fun _ => k1) c) =
  with_children (fun _ => k2) c.
Proof. destruct c; reflexivity. Qed.

(** X10. A load replaces whatever the previous load left in the
    container, whether either of them succeeded or failed: the container
    after two loads is the one after the second alone.  The title is only
    written by a load that brings an article, so after a failed load it
    is still the title the previous load left. *)
Theorem loadArticle_twice (r1 r2 : ArticleResponse) (c : Node) (t : string)
  (log : list LogEntry) :
  let v := mkView (Some c) t log in
  view_container (snd (loadArticle r2 (snd (loadArticle r1 v)))) =
    view_container (snd (loadArticle r2 v))
  /\ (load_failure r2 <> None ->
      view_title (snd (loadArticle r2 (snd (loadArticle r1 v)))) =
      view_title (snd (loadArticle r1 v))).
Proof.
  intros v. unfold v. split.
  - destruct r1, r2; cbn; unfold renderArticle; now rewrite ?container_overwritten.
  - intros Hf. destruct r2; [| | |now elim Hf]; destruct r1; reflexivity.
Qed.

Lemma loadArticle_twice_witness :
  view_title
    (snd (loadArticle (HttpStatus 404)
            (snd (loadArticle (Body minimal_article)
                    (mkView (Some (Element "#article-content" [])) "start" []))))) =
  "T - ワィキペディア".
Proof.
  assert (H : load_failure (HttpStatus 404) <> None) by discriminate.
  exact (proj2 (loadArticle_twice (Body minimal_article) (HttpStatus 404)
                  (Element "#article-content" []) "start" []) H).
Defined.

(** X11. When the page has no article container, [loadArticle] is
    rejected with a [TypeError] whatever the fetch brings: rendering or
    showing the error assigns through [null], and the error thrown while
    the error is shown is not caught.  The title is not written, also
    when an article arrived; the first error is logged. *)
Theorem loadArticle_without_container (r : ArticleResponse) (t : string)
  (log : list LogEntry) :
  exists error,
    loadArticle r (mkView None t log) =
    (Rejected null_container_error,
     mkView None t (log ++ [console_error_entry "エラー:" error])%list)
    /\ error_name null_container_error = "TypeError"
    /\ error = match load_failure r with
               | Some e => e
               | None => null_container_error
               end.
Proof. destruct r; eexists; repeat split. Qed.

(** X12. [toggleToc] flips between two states: it hides a list that is
    not hidden and shows one that is, and sets the toggle's text to what
    the next click does.  Whatever the state before, a toggle reaches one
    of the two states it writes, and from there two toggles give the same
    state back. *)
Theorem toggleToc_flips (s : TocView) :
  toc_hidden (toggleToc s) = negb (toc_hidden s)
  /\ toggle_textContent (toggleToc s) =
     (if toc_hidden (toggleToc s) then "[表示]" else "[非表示]")
  /\ (toggleToc s = mkTocView "none" "[表示]" \/ toggleToc s = mkTocView "block" "[非表示]")
  /\ toggleToc (toggleToc (toggleToc s)) = toggleToc s.
Proof.
  unfold toggleToc, toc_hidden.
  destruct (tocList_display s =? "none"); cbn; auto.
Qed.
End ArticlePage.

(** ** Further properties of the parts loader *)

Section LoaderMore.
Import PartsLoader.

Lemma letter_not_digit (c : ascii) : is_letter c = true -> is_digit c = false.
Proof.
  unfold is_letter, is_digit. cbv zeta.
  destruct (Nat.leb_spec 48 (nat_of_ascii c)), (Nat.leb_spec (nat_of_ascii c) 57),
    (Nat.leb_spec 65 (nat_of_ascii c)), (Nat.leb_spec (nat_of_ascii c) 90),
    (Nat.leb_spec 97 (nat_of_ascii c)), (Nat.leb_spec (nat_of_ascii c) 122);
    cbn; intros; try reflexivity; try discriminate; lia.
Qed.

Lemma letter_not (c d : ascii) : is_letter c = true -> is_letter d = false -> Ascii.eqb c d = false.
Proof.
  intros Hc Hd. destruct (Ascii.eqb c d) eqn:E; [|reflexivity].
  apply Ascii.eqb_eq in E. subst d. congruence.
Qed.

Lemma name_not_malformed (s : string) :
  is_name s = true ->
  match s with
  | EmptyString => true
  | String d _ =>
      is_digit d || Ascii.eqb d "#"%char || Ascii.eqb d "."%char || Ascii.eqb d " "%char
  end = false.
Proof.
  destruct s as [|d r]; [discriminate|]. cbn [is_name]. intros H.
  apply andb_prop in H. destruct H as [H _].
  rewrite (letter_not_digit d H), !(letter_not d _ H) by reflexivity. reflexivity.
Qed.

Lemma simple_not_malformed (sel : string) :
  simple_selector sel = true -> malformed_selector sel = false.
Proof.
  destruct sel as [|c r]; [discriminate|].
  unfold simple_selector, malformed_selector.
  destruct (Ascii.eqb c "#"%char || Ascii.eqb c "."%char) eqn:E.
  - intros H. apply orb_prop in E.
    assert (Hd : is_digit c = false)
      by (destruct E as [E|E]; apply Ascii.eqb_eq in E; subst c; reflexivity).
    rewrite Hd. now apply name_not_malformed.
  - cbn [is_name]. intros H. apply andb_prop in H. destruct H as [H _].
    now rewrite (letter_not_digit c H).
Qed.

(** X13. The ways in which [loadPart] gives up all end alike: the call is
    fulfilled, the document is as it was, and one console entry is added.
    A rejected fetch logs the error it was rejected with; a response that
    is not [ok] logs an error that names the part's path (its body is not
    read and the selector is not looked up); a simple selector (a type, id
    or class selector with a plain name) that matches no element logs a
    warning that names the selector; a malformed selector makes
    [querySelector] throw, and the [SyntaxError] is caught and logged as
    an error, not as a warning. *)
Theorem loadPart_gives_up (partPath sel : string) (pos : option string) (st : Page) :
  (forall e,
      loadPart (NetworkError e) partPath sel pos st =
      (Fulfilled,
       mkPage (document st) (console st ++ [console_error_entry load_error e])%list))
  /\ (forall text,
        loadPart (Response false text) partPath sel pos st =
        (Fulfilled,
         mkPage (document st)
                (console st ++
                 [console_error_entry load_error
                    (mkError "Error" ("パーツの読み込みに失敗: " ++ partPath))])%list))
  /\ (simple_selector sel = true ->
      find_in sel (document st) = None ->
      forall html,
        loadPart (Response true html) partPath sel pos st =
        (Fulfilled,
         mkPage (document st)
                (console st ++
                 [console_warn_entry ("ターゲット要素が見つかりません: " ++ sel)])%list))
  /\ (malformed_selector sel = true ->
      find_in sel (document st) = None ->
      forall html,
        loadPart (Response true html) partPath sel pos st =
        (Fulfilled,
         mkPage (document st)
                (console st ++
                 [console_error_entry load_error (selector_SyntaxError sel)])%list)).
Proof.
  repeat split.
  - intros Hs H html. apply simple_not_malformed in Hs.
    unfold loadPart, async, try_catch, loadPart_try, bind, await_fetch, ret, querySelector.
    cbn [fst snd negb]. rewrite H, Hs. reflexivity.
  - intros Hm H html.
    unfold loadPart, async, try_catch, loadPart_try, bind, await_fetch, ret, querySelector.
    cbn [fst snd negb]. rewrite H, Hm. reflexivity.
Qed.

Lemma loadPart_gives_up_witness :
  loadPart (Response true "X") "parts/x.html" "#nowhere" None sample_page =
  (Fulfilled,
   mkPage sample_doc
          [console_warn_entry ("ターゲット要素が見つかりません: " ++ "#nowhere")])
  /\ loadPart (Response true "X") "parts/x.html" "##bad" None sample_page =
     (Fulfilled,
      mkPage sample_doc
             [console_error_entry load_error (selector_SyntaxError "##bad")]).
Proof.
  split.
  - exact (proj1 (proj2 (proj2 (@loadPart_gives_up "parts/x.html" "#nowhere" None
                                  sample_page)))
                 eq_refl eq_refl "X").
  - exact (proj2 (proj2 (proj2 (@loadPart_gives_up "parts/x.html" "##bad" None
                                  sample_page)))
                 eq_refl eq_refl "X").
Defined.

Lemma find_in_root (sel : string) (cs : list Node) :
  find_in sel (Element sel cs) = Some [].
Proof. simpl. now rewrite String.eqb_refl. Qed.

(** X14. On the root element the positions that change its children
    work as on any element, while [before] and [after] are refused by the
    DOM: the error is caught and logged, the call is fulfilled and the
    document is as it was. *)
Theorem loadPart_on_root (partPath sel html : string) (cs : list Node)
  (log : list LogEntry) :
  let st := mkPage (Element sel cs) log in
  let refused :=
    (Fulfilled,
     mkPage (Element sel cs)
            (log ++ [console_error_entry load_error NoModificationAllowedError])%list) in
  loadPart (Response true html) partPath sel (Some "before") st = refused
  /\ loadPart (Response true html) partPath sel (Some "after") st = refused
  /\ loadPart (Response true html) partPath sel (Some "replace") st =
     (Fulfilled, mkPage (Element sel [Markup html]) log)
  /\ loadPart (Response true html) partPath sel (Some "append") st =
     (Fulfilled, mkPage (Element sel (cs ++ [Markup html])%list) log)
  /\ loadPart (Response true html) partPath sel (Some "prepend") st =
     (Fulfilled, mkPage (Element sel (Markup html :: cs)) log).
Proof.
  intros st refused. unfold st, refused.
  repeat split;
    rewrite (@loadPart_found partPath sel html _ (mkPage (Element sel cs) log) []
               (find_in_root sel cs));
    reflexivity.
Qed.

Lemma call_console (job : Part * FetchOutcome) (st : Page) :
  exists entries,
    console (snd (call job st)) = (console st ++ entries)%list /\ length entries <= 1.
Proof.
  destruct job as [part r].
  unfold call, loadPart, async, try_catch, loadPart_try, bind, await_fetch, ret,
    querySelector.
  cbn [fst snd].
  destruct r as [e|[|] text]; cbn [fst snd negb throw];
    try (eexists; split; [reflexivity | simpl; lia]).
  destruct (find_in (selector part) (document st)) as [target|];
    [|destruct (malformed_selector (selector part));
      (eexists; split; [reflexivity | simpl; lia])].
  repeat match goal with
         | |- context [if ?b then _ else _] => destruct b
         end;
    unfold insertAdjacentHTML, set_innerHTML, set_document;
    try destruct (splice_target _ target (document st));
    cbn [snd console];
    first [ exists []; split; [now rewrite app_nil_r | simpl; lia]
          | eexists; split; [reflexivity | simpl; lia] ].
Qed.

(** X15. [loadParts] is fulfilled for every list of entries, every
    outcome of their fetches, every order of completion and every page.
    It never removes what the console held, and adds at most one entry
    per spec. *)
Theorem loadParts_never_rejects (order : list (Part * FetchOutcome)) (st : Page) :
  fst (loadParts order st) = Fulfilled
  /\ exists entries,
       console (snd (loadParts order st)) = (console st ++ entries)%list
       /\ length entries <= length order.
Proof.
  rewrite loadParts_run. cbn [fst snd]. split; [apply run_fulfilled|].
  revert st. induction order as [|job rest IH]; intros st.
  - exists []. split; [now rewrite app_nil_r | reflexivity].
  - rewrite (proj1 (run_cons job rest st)).
    destruct (call_console job st) as (e1 & E1 & L1).
    destruct (IH (snd (call job st))) as (e2 & E2 & L2).
    exists (e1 ++ e2)%list. split.
    + now rewrite E2, E1, app_assoc.
    + rewrite length_app. simpl. lia.
Qed.

Lemma call_document_congr (job : Part * FetchOutcome) (st1 st2 : Page) :
  document st1 = document st2 ->
  document (snd (call job st1)) = document (snd (call job st2)).
Proof.
  intros H. destruct job as [part r].
  unfold call, loadPart, async, try_catch, loadPart_try, bind, await_fetch, ret,
    querySelector.
  cbn [fst snd].
  destruct r as [e|[|] text]; cbn [fst snd negb throw]; try exact H.
  rewrite H.
  destruct (find_in (selector part) (document st2)) as [target|];
    [|destruct (malformed_selector (selector part)); exact H].
  repeat match goal with
         | |- context [if ?b then _ else _] => destruct b
         end;
    unfold insertAdjacentHTML, set_innerHTML, set_document;
    rewrite ?H;
    try destruct (splice_target _ target (document st2));
    cbn [snd document]; try reflexivity; exact H.
Qed.

Lemma run_document_congr (order : list (Part * FetchOutcome)) :
  forall st1 st2 : Page,
    document st1 = document st2 ->
    document (snd (run order st1)) = document (snd (run order st2)).
Proof.
  induction order as [|job rest IH]; intros st1 st2 H; [exact H|].
  rewrite (proj1 (run_cons job rest st1)), (proj1 (run_cons job rest st2)).
  apply IH. now apply call_document_congr.
Qed.





(** X16. The entries whose fetch fails have no part in the result: for
    every page and every order of completion, the document [loadParts]
    leaves is the one it leaves for the other entries alone, run in the
    same order. *)
Theorem failed_entries_droppable (order : list (Part * FetchOutcome)) (st : Page) :
  document (snd (loadParts order st)) = document (snd (loadParts (fetched order) st)).
Proof.
  rewrite !loadParts_run. cbn [snd].
  revert st. induction order as [|job rest IH]; intros st; [reflexivity|].
  unfold fetched. cbn [filter]. fold (fetched rest).
  destruct (fetch_failed (snd job)) eqn:Ef; cbn [negb].
  - rewrite (proj1 (run_cons job rest st)), <- IH.
    apply run_document_congr. now apply call_failed.
  - rewrite (proj1 (run_cons job rest st)),
      (proj1 (run_cons job (fetched rest) st)).
    apply IH.
Qed.

Lemma splice_nth_compose (A : Type) (a : A -> A) (F1 F2 F3 : A -> list A) (i : nat)
  (l : list A) :
  (forall x, F1 x = [a x]) ->
  (forall x, F2 (a x) = F3 x) ->
  splice_nth i F2 (splice_nth i F1 l) = splice_nth i F3 l.
Proof.
  intros H1 H2. revert i. induction l as [|x l IH]; intros i; [now destruct i|].
  destruct i as [|i]; cbn [splice_nth].
  - rewrite H1. cbn [app splice_nth]. now rewrite H2.
  - now rewrite IH.
Qed.

Lemma splice_in_compose (g1 g2 g3 : Node -> Node) :
  (forall n, g2 (g1 n) = g3 n) ->
  forall (q : Path) (i : nat) (ns : list Node),
    splice_in (fun n => [g2 n]) i q (splice_in (fun n => [g1 n]) i q ns) =
    splice_in (fun n => [g3 n]) i q ns.
Proof.
  intros H q. induction q as [|j q IH]; intros i ns; rewrite !splice_in_unfold.
  - apply (splice_nth_compose g1); intros x; [reflexivity | now rewrite H].
  - apply (splice_nth_compose
             (fun n => match n with
                       | Element l cs => Element l (splice_in (fun n => [g1 n]) j q cs)
                       | Markup h => Markup h
                       end)).
    + intros [l cs|h]; reflexivity.
    + intros [l cs|h]; [|reflexivity]. now rewrite IH.
Qed.

Lemma map_target_compose (g1 g2 g3 : Node -> Node) (target : Path) (doc : Node) :
  (forall n, g2 (g1 n) = g3 n) ->
  map_target g2 target (map_target g1 target doc) = map_target g3 target doc.
Proof.
  intros H. destruct target as [|i q]; [apply H|].
  destruct doc as [l cs|h]; [|reflexivity].
  cbn [map_target]. f_equal. now apply splice_in_compose.
Qed.

Lemma place_in_place (pos html : string) (target : Path) (doc : Node) :
  in_place_position pos ->
  exists k, place pos html target doc = Some (map_target (with_children k) target doc).
Proof.
  intros [Hb Ha]. unfold place.
  apply String.eqb_neq in Hb. apply String.eqb_neq in Ha. rewrite Hb, Ha.
  destruct (pos =? "append"); [eexists; reflexivity|].
  destruct (pos =? "prepend"); eexists; reflexivity.
Qed.

(** X17. [replace] wins over what an earlier call put into the same
    target: after a call with any position that works on the target's
    children ([replace], [append], [prepend] or an unrecognized value), a
    [replace] on the same selector leaves the very document it would have
    left without the earlier call. *)
Theorem replace_overrides (p1 p2 sel h1 h2 pos : string) (st : Page) (target : Path) :
  find_in sel (document st) = Some target ->
  in_place_position pos ->
  document_after (Some "replace") p2 sel h2
    (snd (loadPart (Response true h1) p1 sel (Some pos) st)) =
  document_after (Some "replace") p2 sel h2 st.
Proof.
  intros H Hpos.
  destruct (find_in_element _ _ H) as (cs & Hat).
  destruct (place_in_place h1 target (document st) Hpos) as (k & Hk).
  rewrite (@loadPart_found p1 sel h1 pos st target H), Hk. cbn [snd].
  destruct (@map_target_children sel k (document st) target cs H Hat) as (Hf & _).
  rewrite (@document_after_place "replace" p2 sel h2
             (mkPage (map_target (with_children k) target (document st)) (console st))
             target _ Hf eq_refl).
  cbn [document].
  rewrite (@document_after_place "replace" p2 sel h2 st target _ H eq_refl).
  apply map_target_compose. intros [l c|h]; reflexivity.
Qed.

Lemma replace_overrides_witness :
  document_after (Some "replace") "b.html" "#footer-placeholder" "B"
    (snd (loadPart (Response true "A") "a.html" "#footer-placeholder" (Some "append")
            sample_page)) =
  document_after (Some "replace") "b.html" "#footer-placeholder" "B" sample_page.
Proof.
  assert (Hpos : in_place_position "append") by (split; discriminate).
  exact (@replace_overrides "a.html" "b.html" "#footer-placeholder" "A" "B" "append"
           sample_page [0; 2] eq_refl Hpos).
Defined.

Lemma two_calls (j1 j2 : Part * FetchOutcome) (st : Page) :
  snd (loadParts [j1; j2] st) = snd (call j2 (snd (call j1 st))).
Proof.
  rewrite loadParts_run. cbn [snd].
  rewrite (proj1 (run_cons j1 [j2] st)).
  now rewrite (proj1 (run_cons j2 [] (snd (call j1 st)))).
Qed.

Lemma call_in_place (pos p sel t : string) (k : list Node -> list Node) (st : Page)
  (target : Path) (cs : list Node) :
  find_in sel (document st) = Some target ->
  node_at target (document st) = Some (Element sel cs) ->
  place pos t target (document st) =
    Some (map_target (with_children k) target (document st)) ->
  or_else (Some pos) "replace" = pos ->
  let st1 := snd (call (mkPart p sel (Some pos), Response true t) st) in
  find_in sel (document st1) = Some target
  /\ node_at target (document st1) = Some (Element sel (k cs)).
Proof.
  intros H Hat Hp Hor st1. unfold st1, call. cbn [fst snd path selector position].
  rewrite Hor.
  change (document (snd (loadPart (Response true t) p sel (Some pos) st)))
    with (document_after (Some pos) p sel t st).
  rewrite (@document_after_place pos p sel t st target _ H Hp).
  apply (@map_target_children sel k (document st) target cs H Hat).
Qed.

(** X18. Two specs that add to the same target leave their texts in the
    order in which their calls ran: with [append] the text of the call
    that ran first comes first among the added children, with [prepend]
    it comes second.  So the order of such parts in the page is the order
    in which their fetches completed, not the order of the array. *)
Theorem same_target_completion_order (p1 p2 sel t1 t2 : string) (st : Page)
  (target : Path) (cs : list Node) :
  find_in sel (document st) = Some target ->
  node_at target (document st) = Some (Element sel cs) ->
  let job pos p t := (mkPart p sel (Some pos), Response true t) in
  childNodes target
    (document (snd (loadParts [job "append" p1 t1; job "append" p2 t2] st))) =
    Some (cs ++ [Markup t1; Markup t2])%list
  /\ childNodes target
       (document (snd (loadParts [job "append" p2 t2; job "append" p1 t1] st))) =
     Some (cs ++ [Markup t2; Markup t1])%list
  /\ childNodes target
       (document (snd (loadParts [job "prepend" p1 t1; job "prepend" p2 t2] st))) =
     Some (Markup t2 :: Markup t1 :: cs).
Proof.
  intros H Hat job. unfold job. clear job.
  assert (App : forall pa pb ta tb,
             childNodes target
               (document (snd (loadParts
                  [(mkPart pa sel (Some "append"), Response true ta);
                   (mkPart pb sel (Some "append"), Response true tb)] st))) =
             Some (cs ++ [Markup ta; Markup tb])%list).
  { intros pa pb ta tb. rewrite two_calls.
    destruct (@call_in_place "append" pa sel ta (fun c => c ++ [Markup ta])%list
                st target cs H Hat eq_refl eq_refl) as (H1 & Hat1).
    destruct (@call_in_place "append" pb sel tb (fun c => c ++ [Markup tb])%list
                _ target _ H1 Hat1 eq_refl eq_refl) as (_ & Hat2).
    unfold childNodes. rewrite Hat2. now rewrite <- app_assoc. }
  split; [apply App|]. split; [apply App|].
  rewrite two_calls.
  destruct (@call_in_place "prepend" p1 sel t1 (fun c => Markup t1 :: c)
              st target cs H Hat eq_refl eq_refl) as (H1 & Hat1).
  destruct (@call_in_place "prepend" p2 sel t2 (fun c => Markup t2 :: c)
              _ target _ H1 Hat1 eq_refl eq_refl) as (_ & Hat2).
  unfold childNodes. now rewrite Hat2.
Qed.

Lemma same_target_completion_order_witness :
  childNodes [0; 2]
    (document (snd (loadParts
       [(mkPart "a.html" "#footer-placeholder" (Some "append"), Response true "A");
        (mkPart "b.html" "#footer-placeholder" (Some "append"), Response true "B")]
       sample_page))) =
  Some [Markup "old footer"; Markup "A"; Markup "B"].
Proof.
  exact (proj1 (@same_target_completion_order "a.html" "b.html" "#footer-placeholder"
                  "A" "B" sample_page [0; 2] [Markup "old footer"] eq_refl eq_refl)).
Defined.
End LoaderMore.
